(** * trpc-openapi: from a zod input/output parser and a path template to
      OpenAPI v3 parameter, request-body and response objects.

    A shallow embedding of the generator's zod helpers
    ([getBaseZodType], [extractPathSchema], [schemaToPathParameterObjects],
    [getParameterObjects], [getMutationInputObjects], [getResponsesObject])
    together with the part of JavaScript and of zod they rely on:
    ordinary objects with their own-key order and the [Object.prototype]
    fallback of a property read, the global regular expression
    [/\{(\w+)\}/g], and zod's [isOptional], which is
    [safeParse(undefined).success]. *)

From Stdlib Require Import List String Ascii Bool Arith NArith Lia.
From Stdlib Require Import Sorting.Sorted.
From Equations Require Import Equations.
Import ListNotations.
Open Scope string_scope.
Open Scope list_scope.

Set Implicit Arguments.

(* ------------------------------------------------------------------ *)
(** * Errors: the [TRPCError]s thrown by the helpers                    *)
(* ------------------------------------------------------------------ *)

(** Every [throw new TRPCError({ message, code: 'INTERNAL_SERVER_ERROR' })]
    of the source, one constructor per distinct message. *)
Inductive TRPCError : Type :=
| NotASchema            (* 'Input parser expects ZodType' *)
| OutputNotASchema      (* 'Output parser expects ZodType' *)
| ObjectKindRequired    (* 'Input parser expects ZodObject' *)
| StringFieldRequired   (* 'Input parser expects ZodObject<{ [string]: ZodString }>' *)
| MalformedSegment      (* 'An invalid dynamic URL segment found.' *)
| UnknownPathField (key : string).
                        (* 'A dynamic segment found with no matching input parameter: ${key}' *)

Definition message (e : TRPCError) : string :=
  match e with
  | NotASchema => "Input parser expects ZodType"
  | OutputNotASchema => "Output parser expects ZodType"
  | ObjectKindRequired => "Input parser expects ZodObject"
  | StringFieldRequired => "Input parser expects ZodObject<{ [string]: ZodString }>"
  | MalformedSegment => "An invalid dynamic URL segment found."
  | UnknownPathField key =>
      ("A dynamic segment found with no matching input parameter: " ++ key)%string
  end.

Definition code (_ : TRPCError) : string := "INTERNAL_SERVER_ERROR".

(** A call either returns or throws. *)
Inductive Result (A : Type) : Type :=
| Return (a : A)
| Throw (e : TRPCError).
Arguments Return {A} a.
Arguments Throw {A} e.

Definition bind {A B} (r : Result A) (k : A -> Result B) : Result B :=
  match r with
  | Return a => k a
  | Throw e => Throw e
  end.

Notation "x <- r ;; k" := (bind r (fun x => k))
  (at level 61, r at next level, right associativity).
Notation "' p <- r ;; k" := (bind r (fun x => let 'p := x in k))
  (at level 61, p pattern, r at next level, right associativity).

(** [xs.map(f)] with a callback that may throw: elements are visited left
    to right and the first throw aborts the whole map. *)
Fixpoint mapM {A B} (f : A -> Result B) (xs : list A) : Result (list B) :=
  match xs with
  | [] => Return []
  | x :: xs' => y <- f x ;; ys <- mapM f xs' ;; Return (y :: ys)
  end.

(* ------------------------------------------------------------------ *)
(** * JavaScript ordinary objects                                      *)
(* ------------------------------------------------------------------ *)

Module JS.

(** An ordinary object as the list of its own enumerable string-keyed
    properties, in the order [Object.keys] reports them. *)
Definition Obj (V : Type) : Type := list (string * V).

Definition is_digit (c : ascii) : bool :=
  ((48 <=? nat_of_ascii c) && (nat_of_ascii c <=? 57))%nat.

Fixpoint digits_value (acc : N) (s : string) : option N :=
  match s with
  | EmptyString => Some acc
  | String c s' =>
      if is_digit c
      then digits_value (acc * 10 + (N_of_ascii c - 48))%N s'
      else None
  end.

(** A key is an array index when it is the canonical decimal form of an
    integer between 0 and 2^32 - 2. *)
Definition array_index (k : string) : option N :=
  match k with
  | EmptyString => None
  | String "0"%char EmptyString => Some 0%N
  | String "0"%char _ => None
  | _ => match digits_value 0%N k with
         | Some n => if (n <? 4294967295)%N then Some n else None
         | None => None
         end
  end.

Section Properties.
Context {V : Type}.

Definition keys (o : Obj V) : list string := map fst o.
Definition values (o : Obj V) : list V := map snd o.

(** Own property lookup. *)
Fixpoint get_own (o : Obj V) (k : string) : option V :=
  match o with
  | [] => None
  | (k', v) :: o' => if String.eqb k' k then Some v else get_own o' k
  end.

Definition has_own (o : Obj V) (k : string) : bool :=
  match get_own o k with Some _ => true | None => false end.

(** Assignment to an existing own property keeps its position. *)
Fixpoint update (o : Obj V) (k : string) (v : V) : Obj V :=
  match o with
  | [] => []
  | (k', v') :: o' =>
      if String.eqb k' k then (k', v) :: o' else (k', v') :: update o' k v
  end.

(** A new array-index key goes after the smaller array indices and
    before every other key (two keys never denote the same index). *)
Fixpoint insert_index (n : N) (k : string) (v : V) (o : Obj V) : Obj V :=
  match o with
  | [] => [(k, v)]
  | (k', v') :: o' =>
      match array_index k' with
      | Some m => if (m <=? n)%N
                  then (k', v') :: insert_index n k v o'
                  else (k, v) :: o
      | None => (k, v) :: o
      end
  end.

(** [CreateDataProperty(o, k, v)], the step of [Object.fromEntries] and
    of an object spread: array indices are kept first in ascending
    order, every other key in order of first insertion. *)
Definition set (o : Obj V) (k : string) (v : V) : Obj V :=
  if has_own o k then update o k v
  else match array_index k with
       | Some n => insert_index n k v o
       | None => o ++ [(k, v)]
       end.

(** The assignment [o[k] = v] on a plain object. It defines the
    property as [set] does, except for the key [__proto__]: unless [o]
    owns a property of that name, the assignment reaches the setter
    inherited from [Object.prototype], which replaces the prototype of
    [o] and makes no own property. *)
Definition assign (o : Obj V) (k : string) (v : V) : Obj V :=
  if String.eqb k "__proto__" && negb (has_own o k) then o
  else set o k v.

(** [Object.fromEntries(entries)]. *)
Definition fromEntries (entries : list (string * V)) : Obj V :=
  fold_left (fun o kv => set o (fst kv) (snd kv)) entries [].

(** [{ ...a, ...b }]: a fresh object receiving the own properties of
    [a], then those of [b]. *)
Definition spread (a b : Obj V) : Obj V :=
  fold_left (fun o kv => set o (fst kv) (snd kv)) (a ++ b) [].

End Properties.

(** The string-keyed properties of [Object.prototype]; a property read
    on a plain object finds them when the object has no own property of
    that name. *)
Definition Object_prototype_keys : list string :=
  [ "constructor"; "hasOwnProperty"; "isPrototypeOf";
    "propertyIsEnumerable"; "toLocaleString"; "toString"; "valueOf";
    "__proto__"; "__defineGetter__"; "__defineSetter__";
    "__lookupGetter__"; "__lookupSetter__" ].

Definition inherited (k : string) : bool :=
  existsb (String.eqb k) Object_prototype_keys.

End JS.

(* ------------------------------------------------------------------ *)
(** * The regular expression [/\{(\w+)\}/g]                            *)
(* ------------------------------------------------------------------ *)

Module RegExp.

(** [\w] without the unicode flag: [A-Za-z0-9_]. Templates are read as
    sequences of bytes; no byte of a multi-byte character is a word
    character or a brace, so the captures are those of the UTF-16
    string. *)
Definition is_word (c : ascii) : bool :=
  let n := nat_of_ascii c in
  (((65 <=? n) && (n <=? 90)) || ((97 <=? n) && (n <=? 122))
   || ((48 <=? n) && (n <=? 57)) || (n =? 95))%nat.

(** The longest run of word characters at the head of [s], and what
    follows it. *)
Fixpoint word_run (s : string) : string * string :=
  match s with
  | EmptyString => (EmptyString, EmptyString)
  | String c s' =>
      if is_word c
      then let (w, r) := word_run s' in (String c w, r)
      else (EmptyString, s)
  end.

(** One attempt of [\{(\w+)\}] at the head of [s]: the capture and the
    text after the match. [\w+] is greedy, and a shorter run is followed
    by a word character, never by the closing brace, so only the
    longest run can complete the match. *)
Definition exec_at (s : string) : option (string * string) :=
  match s with
  | String "{"%char s' =>
      match word_run s' with
      | (String c w, String "}"%char r) => Some (String c w, r)
      | _ => None
      end
  | _ => None
  end.

Lemma word_run_length (s w r : string) :
  word_run s = (w, r) -> String.length r <= String.length s.
Proof.
  revert w r; induction s as [|c s IH]; intros w r; simpl.
  - intros H; inversion H; simpl; lia.
  - destruct (is_word c).
    + destruct (word_run s) as [w' r'] eqn:E. intros H; inversion H; subst.
      specialize (IH _ _ eq_refl). lia.
    + intros H; inversion H; subst; simpl; lia.
Qed.

Lemma exec_at_inv (s name rest : string) :
  exec_at s = Some (name, rest) ->
  exists s' c w, s = String "{" s' /\ name = String c w
                 /\ word_run s' = (name, String "}" rest).
Proof.
  unfold exec_at. destruct s as [|c s]; [discriminate|].
  destruct c as [[] [] [] [] [] [] [] []]; try discriminate.
  destruct (word_run s) as [w r] eqn:E.
  destruct w as [|c' w]; [discriminate|].
  destruct r as [|d r]; [discriminate|].
  destruct d as [[] [] [] [] [] [] [] []]; try discriminate.
  intros H; inversion H; subst. exists s, c', w. auto.
Qed.

Lemma exec_at_length (s name rest : string) :
  exec_at s = Some (name, rest) -> String.length rest < String.length s.
Proof.
  intros H. apply exec_at_inv in H as (s' & c & w & -> & _ & E).
  apply word_run_length in E. simpl in *. lia.
Qed.

Definition inspect {A} (a : A) : { b : A | a = b } := exist _ a eq_refl.

(** [Array.from(s.matchAll(/\{(\w+)\}/g)).map((m) => m[1])]: the
    captures of all matches, left to right. After a match the search
    resumes behind it; after a failed attempt, one character further. *)
Equations? matchAll (s : string) : list string by wf (String.length s) lt :=
  matchAll EmptyString := [];
  matchAll (String c s') with inspect (exec_at (String c s')) := {
    | exist _ (Some (name, rest)) _ => name :: matchAll rest
    | exist _ None _ => matchAll s' }.
Proof.
  exact (exec_at_length (String c s') e).
Qed.

End RegExp.

(* ------------------------------------------------------------------ *)
(** * zod: schema nodes, [isOptional], [omit]                          *)
(* ------------------------------------------------------------------ *)

(** [z.ZodFirstPartyTypeKind], the values of [_def.typeName]. *)
Module ZodFirstPartyTypeKind.
Inductive t : Set :=
| ZodString | ZodNumber | ZodNaN | ZodBigInt | ZodBoolean | ZodDate
| ZodUndefined | ZodNull | ZodAny | ZodUnknown | ZodNever | ZodVoid
| ZodArray | ZodObject | ZodLiteral | ZodEffects
| ZodOptional | ZodNullable | ZodDefault.

Definition eq_dec (a b : t) : {a = b} + {a <> b}.
Proof. decide equality. Defined.

Definition eqb (a b : t) : bool := if eq_dec a b then true else false.
End ZodFirstPartyTypeKind.

(** The data a parser is run on, as far as [isOptional] needs it:
    [undefined], and the primitive values a default or a literal holds
    (numbers among the naturals). *)
Inductive JSPrimitive : Type :=
| Vundefined
| Vnull
| Vboolean (b : bool)
| Vnumber (n : N)
| Vstring (s : string).

Definition JSPrimitive_eqb (a b : JSPrimitive) : bool :=
  match a, b with
  | Vundefined, Vundefined | Vnull, Vnull => true
  | Vboolean x, Vboolean y => Bool.eqb x y
  | Vnumber x, Vnumber y => N.eqb x y
  | Vstring x, Vstring y => String.eqb x y
  | _, _ => false
  end.

(** The [effect] of a [ZodEffects] node. *)
Inductive Effect : Type :=
| refinement (check : JSPrimitive -> bool)
| transform (f : JSPrimitive -> JSPrimitive)
| preprocess (f : JSPrimitive -> JSPrimitive).

(** The kinds without an inner schema that the generator never looks
    into; a node of these kinds stands for the bare [z.number()],
    [z.boolean()], ... without checks of its own. *)
Inductive ScalarKind : Set :=
| ZodNumber | ZodNaN | ZodBigInt | ZodBoolean | ZodDate | ZodUndefined
| ZodNull | ZodAny | ZodUnknown | ZodNever | ZodVoid.

(** What a variable of type [unknown] holds when it is not a schema. *)
Inductive NonZod : Set :=
| undefined
| null
| foreign.  (* any other value whose [_def?.typeName] is undefined, such
               as a member inherited from [Object.prototype] *)

(** The values the generator handles: zod schema instances, and the
    values without [_def.typeName]. A [ZodString] carries its checks as
    the predicate they decide. *)
#[warnings="-register-all"]
Inductive ZodType : Type :=
| ZodObject (shape : JS.Obj ZodType)
| ZodString (checks : string -> bool)
| ZodOptional (innerType : ZodType)
| ZodNullable (innerType : ZodType)
| ZodDefault (innerType : ZodType) (defaultValue : JSPrimitive)
| ZodEffects (schema : ZodType) (effect : Effect)
| ZodLiteral (value : JSPrimitive)
| ZodArray (type : ZodType)
| ZodScalar (kind : ScalarKind)
| NotZod (v : NonZod).

(** [schema?._def?.typeName]. *)
Definition typeName (schema : ZodType) : option ZodFirstPartyTypeKind.t :=
  match schema with
  | ZodObject _ => Some ZodFirstPartyTypeKind.ZodObject
  | ZodString _ => Some ZodFirstPartyTypeKind.ZodString
  | ZodOptional _ => Some ZodFirstPartyTypeKind.ZodOptional
  | ZodNullable _ => Some ZodFirstPartyTypeKind.ZodNullable
  | ZodDefault _ _ => Some ZodFirstPartyTypeKind.ZodDefault
  | ZodEffects _ _ => Some ZodFirstPartyTypeKind.ZodEffects
  | ZodLiteral _ => Some ZodFirstPartyTypeKind.ZodLiteral
  | ZodArray _ => Some ZodFirstPartyTypeKind.ZodArray
  | ZodScalar ZodNumber => Some ZodFirstPartyTypeKind.ZodNumber
  | ZodScalar ZodNaN => Some ZodFirstPartyTypeKind.ZodNaN
  | ZodScalar ZodBigInt => Some ZodFirstPartyTypeKind.ZodBigInt
  | ZodScalar ZodBoolean => Some ZodFirstPartyTypeKind.ZodBoolean
  | ZodScalar ZodDate => Some ZodFirstPartyTypeKind.ZodDate
  | ZodScalar ZodUndefined => Some ZodFirstPartyTypeKind.ZodUndefined
  | ZodScalar ZodNull => Some ZodFirstPartyTypeKind.ZodNull
  | ZodScalar ZodAny => Some ZodFirstPartyTypeKind.ZodAny
  | ZodScalar ZodUnknown => Some ZodFirstPartyTypeKind.ZodUnknown
  | ZodScalar ZodNever => Some ZodFirstPartyTypeKind.ZodNever
  | ZodScalar ZodVoid => Some ZodFirstPartyTypeKind.ZodVoid
  | NotZod _ => None
  end.

(** [shape[key]] on the plain object a shape is: the own property, else
    the member inherited from [Object.prototype], else [undefined]. *)
Definition get (shape : JS.Obj ZodType) (key : string) : ZodType :=
  match JS.get_own shape key with
  | Some value => value
  | None => if JS.inherited key then NotZod foreign else NotZod undefined
  end.

(** [value == null]. *)
Definition is_nullish (value : ZodType) : bool :=
  match value with
  | NotZod undefined | NotZod null => true
  | _ => false
  end.

Module z.

Definition object (shape : JS.Obj ZodType) : ZodType := ZodObject shape.
Definition string : ZodType := ZodString (fun _ => true).
Definition literal (value : JSPrimitive) : ZodType := ZodLiteral value.
Definition array (type : ZodType) : ZodType := ZodArray type.
Definition optional (schema : ZodType) : ZodType := ZodOptional schema.

(** [schema.shape]; the generator reads it on [ZodObject]s only. *)
Definition shape (schema : ZodType) : JS.Obj ZodType :=
  match schema with
  | ZodObject shape => shape
  | _ => []
  end.

(** [schema._parse] on a primitive input: the parsed value when the
    input is valid. The generator calls it, through [isOptional], on
    schema instances only. *)
Fixpoint parse (schema : ZodType) (data : JSPrimitive) : option JSPrimitive :=
  match schema with
  | ZodObject _ => None
  | ZodString checks =>
      match data with
      | Vstring s => if checks s then Some data else None
      | _ => None
      end
  | ZodOptional innerType =>
      match data with
      | Vundefined => Some Vundefined
      | _ => parse innerType data
      end
  | ZodNullable innerType =>
      match data with
      | Vnull => Some Vnull
      | _ => parse innerType data
      end
  | ZodDefault innerType defaultValue =>
      match data with
      | Vundefined => parse innerType defaultValue
      | _ => parse innerType data
      end
  | ZodEffects schema (preprocess f) => parse schema (f data)
  | ZodEffects schema (refinement check) =>
      match parse schema data with
      | Some v => if check v then Some v else None
      | None => None
      end
  | ZodEffects schema (transform f) =>
      match parse schema data with
      | Some v => Some (f v)
      | None => None
      end
  | ZodLiteral value => if JSPrimitive_eqb data value then Some data else None
  | ZodArray _ => None
  | ZodScalar ZodNumber =>
      match data with Vnumber _ => Some data | _ => None end
  | ZodScalar ZodBoolean =>
      match data with Vboolean _ => Some data | _ => None end
  | ZodScalar ZodUndefined | ZodScalar ZodVoid =>
      match data with Vundefined => Some data | _ => None end
  | ZodScalar ZodNull =>
      match data with Vnull => Some data | _ => None end
  | ZodScalar ZodAny | ZodScalar ZodUnknown => Some data
  | ZodScalar ZodNaN | ZodScalar ZodBigInt | ZodScalar ZodDate
  | ZodScalar ZodNever => None
  | NotZod _ => None
  end.

(** [schema.isOptional()], which zod defines as
    [this.safeParse(undefined).success]. *)
Definition isOptional (schema : ZodType) : bool :=
  match parse schema Vundefined with
  | Some _ => true
  | None => false
  end.

(** [schema.omit(mask)] of zod 3: a new [ZodObject] whose fresh shape
    is assigned [shape[key] = this.shape[key]] for every key of
    [this.shape], in order, with [Object.keys(mask).indexOf(key) === -1]. *)
Definition omit (schema : ZodType) (mask : JS.Obj bool) : ZodType :=
  ZodObject
    (fold_left
       (fun shape' key =>
          if existsb (String.eqb key) (JS.keys mask) then shape'
          else JS.assign shape' key (get (shape schema) key))
       (JS.keys (shape schema)) []).

End z.

(* ------------------------------------------------------------------ *)
(** * OpenAPI v3 objects                                               *)
(* ------------------------------------------------------------------ *)

Inductive ParameterLocation : Set := Query | Path.
Inductive ParameterStyle : Set := Form | Simple.

Record ParameterObject (SchemaObject : Type) : Type := {
  name : string;
  in_ : ParameterLocation;
  required : bool;
  schema : SchemaObject;
  style : ParameterStyle;
  explode : bool
}.

Record MediaTypeObject (SchemaObject : Type) : Type := {
  media_schema : SchemaObject
}.

Record RequestBodyObject (SchemaObject : Type) : Type := {
  body_required : bool;
  body_content : JS.Obj (MediaTypeObject SchemaObject)
}.

Record ResponseObject (SchemaObject : Type) : Type := {
  description : string;
  content : JS.Obj (MediaTypeObject SchemaObject)
}.

(** A value of a [ResponsesObject]: an inline response or [{ $ref }]. *)
Inductive ResponseOrReference (SchemaObject : Type) : Type :=
| Response (response : ResponseObject SchemaObject)
| Reference (ref : string).
Arguments Reference {SchemaObject} ref.

Record MutationInputObjects (SchemaObject : Type) : Type := {
  requestBody : RequestBodyObject SchemaObject;
  parameters : list (ParameterObject SchemaObject)
}.

Record Options : Set := { target : string }.

(* ------------------------------------------------------------------ *)
(** * The generator                                                    *)
(* ------------------------------------------------------------------ *)

Section Generator.

(** [OpenAPIV3.SchemaObject] and the converter of the
    [zod-to-json-schema] package. *)
Variable SchemaObject : Type.
Variable zodToJsonSchema : ZodType -> Options -> SchemaObject.

(** [Object.keys(o)] for a [ZodObject] instance [o]: the names of the
    instance fields zod's constructors assign ([_def], [spa], ...).
    They are the same for every instance; the shape is reached through
    a getter of the prototype and contributes none of them. *)
Variable ZodObject_own_keys : list string.

Definition Object_keys (instance : ZodType) : list string :=
  ZodObject_own_keys.

Definition zodSchemaToOpenApiSchemaObject (zodSchema : ZodType) : SchemaObject :=
  zodToJsonSchema zodSchema {| target := "openApi3" |}.

Definition zodInstanceofZodType (schema : ZodType) : bool :=
  match typeName schema with
  | Some _ => true
  | None => false
  end.

Definition zodInstanceof (schema : ZodType)
    (zodTypeKind : ZodFirstPartyTypeKind.t) : bool :=
  match typeName schema with
  | Some k => ZodFirstPartyTypeKind.eqb k zodTypeKind
  | None => false
  end.

(** The three [zodInstanceof] tests of the source select the three
    wrapper constructors; [unwrap], [removeDefault] and [innerType]
    return the wrapped node. [ZodNullable] is not among them. *)
Fixpoint getBaseZodType (schema : ZodType) : ZodType :=
  match schema with
  | ZodOptional innerType => getBaseZodType innerType
  | ZodDefault innerType _ => getBaseZodType innerType
  | ZodEffects innerType _ => getBaseZodType innerType
  | _ => schema
  end.

(** The callback of the second [.map] of [extractPathSchema]: from a
    captured segment name to the entry [[key, shape[key]]]. *)
Definition pathSegmentEntry (shape : JS.Obj ZodType) (key : string)
  : Result (string * ZodType) :=
  if String.eqb key "" then Throw MalformedSegment
  else
    let inputParam := get shape key in
    if is_nullish inputParam then Throw (UnknownPathField key)
    else Return (key, inputParam).

Definition extractPathSchema (schema : ZodType) (path : string)
  : Result (ZodType * ZodType) :=
  if negb (zodInstanceofZodType schema) then Throw NotASchema
  else if negb (zodInstanceof schema ZodFirstPartyTypeKind.ZodObject)
  then Throw ObjectKindRequired
  else
    let shape := z.shape schema in
    entries <- mapM (pathSegmentEntry shape) (RegExp.matchAll path) ;;
    let pathParams := z.object (JS.fromEntries entries) in
    let restParams :=
      z.omit schema
        (JS.fromEntries (map (fun k => (k, true)) (Object_keys pathParams))) in
    Return (pathParams, restParams).

(** The callback of the [.map] of [schemaToPathParameterObjects]. *)
Definition pathParameterEntry (schema : ZodType) (key : string)
  : Result (string * ParameterObject SchemaObject) :=
  let value := get (z.shape schema) key in
  if negb (zodInstanceof (getBaseZodType value) ZodFirstPartyTypeKind.ZodString)
  then Throw StringFieldRequired
  else
    let type := value in
    Return (key,
            {| name := key;
               in_ := Path;
               required := negb (z.isOptional type);
               schema := zodSchemaToOpenApiSchemaObject type;
               style := Simple;
               explode := true |}).

Definition schemaToPathParameterObjects (schema : ZodType)
  : Result (JS.Obj (ParameterObject SchemaObject)) :=
  entries <- mapM (pathParameterEntry schema) (JS.keys (z.shape schema)) ;;
  Return (JS.fromEntries entries).

(** The callback of the [.map] over [restParams.shape] in
    [getParameterObjects]. *)
Definition queryParameterEntry (restParams : ZodType) (key : string)
  : Result (string * ParameterObject SchemaObject) :=
  let value := get (z.shape restParams) key in
  if negb (zodInstanceof (getBaseZodType value) ZodFirstPartyTypeKind.ZodString)
  then Throw StringFieldRequired
  else
    let type := value in
    Return (key,
            {| name := key;
               in_ := Query;
               required := negb (z.isOptional type);
               schema := zodSchemaToOpenApiSchemaObject type;
               style := Form;
               explode := true |}).

Definition getParameterObjects (schema : ZodType) (path : string)
  : Result (list (ParameterObject SchemaObject)) :=
  if negb (zodInstanceofZodType schema) then Throw NotASchema
  else if negb (zodInstanceof schema ZodFirstPartyTypeKind.ZodObject)
  then Throw ObjectKindRequired
  else
    '(pathParams, restParams) <- extractPathSchema schema path ;;
    restParamObjects <-
      (entries <- mapM (queryParameterEntry restParams)
                    (JS.keys (z.shape restParams)) ;;
       Return (JS.fromEntries entries)) ;;
    pathParamObjects <- schemaToPathParameterObjects pathParams ;;
    Return (JS.values (JS.spread restParamObjects pathParamObjects)).

Definition getMutationInputObjects (schema : ZodType) (path : string)
  : Result (MutationInputObjects SchemaObject) :=
  if negb (zodInstanceofZodType schema) then Throw NotASchema
  else
    '(pathParams, restParams) <- extractPathSchema schema path ;;
    pathParamObjects <- schemaToPathParameterObjects pathParams ;;
    let requestBodySchema := zodSchemaToOpenApiSchemaObject restParams in
    Return
      {| requestBody :=
           {| body_required := negb (z.isOptional restParams);
              body_content :=
                JS.fromEntries
                  [("application/json",
                    {| media_schema := requestBodySchema |})] |};
         parameters := JS.values pathParamObjects |}.

Definition errorResponseObject : ResponseObject SchemaObject :=
  {| description := "Error response";
     content :=
       JS.fromEntries
         [("application/json",
           {| media_schema :=
                zodSchemaToOpenApiSchemaObject
                  (z.object
                     (JS.fromEntries
                        [("ok", z.literal (Vboolean false));
                         ("error",
                          z.object
                            (JS.fromEntries
                               [("message", z.string);
                                ("code", z.string);
                                ("issues",
                                 z.optional
                                   (z.array
                                      (z.object
                                         (JS.fromEntries
                                            [("message", z.string)]))))]))]))
           |})] |}.

Definition getResponsesObject (schema : ZodType)
  : Result (JS.Obj (ResponseOrReference SchemaObject)) :=
  if negb (zodInstanceofZodType schema) then Throw OutputNotASchema
  else
    let successResponseObject :=
      {| description := "Successful response";
         content :=
           JS.fromEntries
             [("application/json",
               {| media_schema :=
                    zodSchemaToOpenApiSchemaObject
                      (z.object
                         (JS.fromEntries
                            [("ok", z.literal (Vboolean true));
                             ("data", schema)])) |})] |} in
    Return
      (JS.fromEntries
         [("200", Response successResponseObject);
          ("default", Reference "#/components/responses/error")]).

End Generator.

(* ------------------------------------------------------------------ *)
(** * Vocabulary of the properties                                     *)
(* ------------------------------------------------------------------ *)

(** The order [Object.keys] guarantees: array indices first, ascending,
    then the other keys. *)
Definition key_le (k1 k2 : string) : Prop :=
  match JS.array_index k1, JS.array_index k2 with
  | Some m, Some n => (m <= n)%N
  | Some _, None => True
  | None, Some _ => False
  | None, None => True
  end.

Definition wf_keys (ks : list string) : Prop :=
  NoDup ks /\ StronglySorted key_le ks.

Definition mem (k : string) (ks : list string) : bool :=
  existsb (String.eqb k) ks.

(** The keys [omit] hands on: those outside the mask, [__proto__]
    apart, which an assignment does not define. *)
Definition kept (maskKeys : list string) (key : string) : bool :=
  negb (mem key maskKeys) && negb (String.eqb key "__proto__").

(** The three tests of [getBaseZodType]. *)
Definition is_wrapper (schema : ZodType) : bool :=
  zodInstanceof schema ZodFirstPartyTypeKind.ZodOptional
  || zodInstanceof schema ZodFirstPartyTypeKind.ZodDefault
  || zodInstanceof schema ZodFirstPartyTypeKind.ZodEffects.

(** One unwrapping step: from a wrapper to the node it wraps. *)
Inductive inner_of : ZodType -> ZodType -> Prop :=
| inner_unwrap innerType : inner_of (ZodOptional innerType) innerType
| inner_removeDefault innerType defaultValue :
    inner_of (ZodDefault innerType defaultValue) innerType
| inner_innerType innerType effect :
    inner_of (ZodEffects innerType effect) innerType.

(** Zero or more unwrapping steps. *)
Inductive unwraps_to : ZodType -> ZodType -> Prop :=
| unwraps_here schema : unwraps_to schema schema
| unwraps_step schema innerType base :
    inner_of schema innerType -> unwraps_to innerType base ->
    unwraps_to schema base.

(** Every entry the two callbacks produce for a partition of [schema]
    is named after its key and takes its flag from the node
    [schema.shape[key]]. *)
Definition flag_of_original {SchemaObject : Type} (schema : ZodType)
    (kv : string * ParameterObject SchemaObject) : Prop :=
  name (snd kv) = fst kv
  /\ required (snd kv) = negb (z.isOptional (get (z.shape schema) (fst kv))).

(** An entry named after its key, with location [l]. *)
Definition named_and_located {SchemaObject : Type} (l : ParameterLocation)
    (kv : string * ParameterObject SchemaObject) : Prop :=
  name (snd kv) = fst kv /\ in_ (snd kv) = l.

(** [ZodObject_own_keys] in zod 3.14: the field [spa] and what the
    constructor of [ZodType] assigns ([_def] and the bound methods),
    then the fields of [ZodObject]. *)
Definition zod3_own_keys : list string :=
  ["spa"; "_def"; "parse"; "safeParse"; "parseAsync"; "safeParseAsync";
   "refine"; "refinement"; "superRefine"; "optional"; "nullable";
   "nullish"; "array"; "promise"; "or"; "and"; "transform"; "default";
   "describe"; "isNullable"; "isOptional";
   "_cached"; "nonstrict"; "augment"; "extend"].

(** A converter that keeps the node it is given as its schema document. *)
Definition keep_node (zodSchema : ZodType) (_ : Options) : ZodType := zodSchema.

(** [{ q, id }] with an optional [q], for the template [/users/{id}]. *)
Definition user_query : ZodType :=
  z.object (JS.fromEntries [("q", z.optional z.string); ("id", z.string)]).

(** [{ id, n }] with a numeric [n]. *)
Definition user_count : ZodType :=
  z.object (JS.fromEntries [("id", z.string); ("n", ZodScalar ZodNumber)]).

(** [{ id }] alone. *)
Definition user_id : ZodType :=
  z.object (JS.fromEntries [("id", z.string)]).

(** [{ id, tag }] with a nullable [tag]. *)
Definition user_tag : ZodType :=
  z.object (JS.fromEntries [("id", z.string); ("tag", ZodNullable z.string)]).

(** The check of [z.string().min(5)]. *)
Definition min5 (s : string) : bool := (5 <=? String.length s)%nat.

(** [{ nick }] where [nick] is [z.string().min(5).optional().default("x")]. *)
Definition user_nick : ZodType :=
  z.object
    (JS.fromEntries
       [("nick", ZodDefault (ZodOptional (ZodString min5)) (Vstring "x"))]).

(** All path-location entries come before all query-location entries. *)
Fixpoint path_then_query (locations : list ParameterLocation) : bool :=
  match locations with
  | [] => true
  | Path :: rest => path_then_query rest
  | Query :: rest =>
      forallb (fun l => match l with Query => true | Path => false end) rest
  end.

(** The keys of [ks] not in [seen], each at its first occurrence. *)
Fixpoint distinct_from (seen ks : list string) : list string :=
  match ks with
  | [] => []
  | k :: ks' =>
      if mem k seen then distinct_from seen ks'
      else k :: distinct_from (seen ++ [k]) ks'
  end.

(** A string of word characters. *)
Fixpoint all_word (s : string) : bool :=
  match s with
  | EmptyString => true
  | String c s' => RegExp.is_word c && all_word s'
  end.

(** A string without an opening brace. *)
Fixpoint no_open_brace (s : string) : bool :=
  match s with
  | EmptyString => true
  | String c s' => negb (Ascii.eqb c "{") && no_open_brace s'
  end.

(** A path template written segment by segment: literal text, or a
    dynamic segment [{name}]. *)
Inductive Segment : Set :=
| Literal (text : string)
| Dynamic (name : string).

Fixpoint render (segments : list Segment) : string :=
  match segments with
  | [] => EmptyString
  | Literal text :: rest => (text ++ render rest)%string
  | Dynamic name :: rest => ("{" ++ name ++ "}" ++ render rest)%string
  end.

Fixpoint dynamic_names (segments : list Segment) : list string :=
  match segments with
  | [] => []
  | Literal _ :: rest => dynamic_names rest
  | Dynamic name :: rest => name :: dynamic_names rest
  end.

(** Literal text holds no opening brace; a dynamic name is a non-empty
    run of word characters. *)
Definition segment_ok (segment : Segment) : bool :=
  match segment with
  | Literal text => no_open_brace text
  | Dynamic name => negb (String.eqb name "") && all_word name
  end.

(** An entry named after its key whose schema document is the
    conversion of the node the input schema holds under that key, with
    [explode] set and the style of its location. *)
Definition entry_fields {SchemaObject : Type}
    (zodToJsonSchema : ZodType -> Options -> SchemaObject) (input : ZodType)
    (kv : string * ParameterObject SchemaObject) : Prop :=
  name (snd kv) = fst kv
  /\ schema (snd kv)
     = zodToJsonSchema (get (z.shape input) (fst kv)) {| target := "openApi3" |}
  /\ explode (snd kv) = true
  /\ style (snd kv) = match in_ (snd kv) with Path => Simple | Query => Form end.

(** The node unwraps to a [ZodString]. *)
Definition string_based (value : ZodType) : bool :=
  zodInstanceof (getBaseZodType value) ZodFirstPartyTypeKind.ZodString.

(* ------------------------------------------------------------------ *)
(** * Facts about ordinary objects                                     *)
(* ------------------------------------------------------------------ *)

Example array_index_10 : JS.array_index "10" = Some 10%N.
Proof. reflexivity. Qed.

Example array_index_007 : JS.array_index "007" = None.
Proof. reflexivity. Qed.

Example array_index_id : JS.array_index "id" = None.
Proof. reflexivity. Qed.

Example fromEntries_order :
  JS.keys (JS.fromEntries
             [("b", 1%nat); ("2", 2%nat); ("a", 3%nat); ("1", 4%nat); ("b", 5%nat)])
  = ["1"; "2"; "b"; "a"].
Proof. reflexivity. Qed.

Example matchAll_users :
  RegExp.matchAll "/users/{id}/posts/{postId}" = ["id"; "postId"].
Proof. reflexivity. Qed.

Example matchAll_nested :
  RegExp.matchAll "/{a{b}/{}/{c-d}/{e_1}" = ["b"; "e_1"].
Proof. reflexivity. Qed.

(** The partition for [/users/{id}/posts/{postId}] and the fields
    [id], [postId], [title]. *)
Example partition_users_posts :
  extractPathSchema zod3_own_keys
    (z.object (JS.fromEntries
                 [("id", z.string); ("postId", z.string); ("title", z.string)]))
    "/users/{id}/posts/{postId}"
  = Return (ZodObject [("id", z.string); ("postId", z.string)],
            ZodObject [("id", z.string); ("postId", z.string);
                       ("title", z.string)]).
Proof. reflexivity. Qed.

(** [omit] assigns to a fresh object, so an own field [__proto__] of
    the input is not handed on. *)
Example omit_own_proto :
  z.omit (ZodObject [("__proto__", z.string); ("id", z.string)]) []
  = ZodObject [("id", z.string)].
Proof. reflexivity. Qed.

(** A path field named by an array index is listed first, whatever the
    order of the spread. *)
Example index_named_path_field :
  match getParameterObjects keep_node zod3_own_keys
          (z.object (JS.fromEntries [("q", z.string); ("0", z.string)]))
          "/items/{0}" with
  | Return objects => map (fun object => (name object, in_ object)) objects
  | Throw _ => []
  end = [("0", Path); ("q", Query)].
Proof. reflexivity. Qed.

Lemma key_le_trans (a b c : string) : key_le a b -> key_le b c -> key_le a c.
Proof.
  unfold key_le.
  destruct (JS.array_index a), (JS.array_index b), (JS.array_index c);
    try tauto; lia.
Qed.

Section ObjectFacts.
Context {V : Type}.
Implicit Types (o : JS.Obj V) (k : string) (v : V).

Abbreviation put := (fun (o : JS.Obj V) (kv : string * V) => JS.set o (fst kv) (snd kv)).

Lemma get_own_In o k v : JS.get_own o k = Some v -> In (k, v) o.
Proof.
  induction o as [|[k' v'] o IH]; simpl; [discriminate|].
  destruct (String.eqb k' k) eqn:E.
  - apply String.eqb_eq in E; subst. intros H; inversion H; auto.
  - auto.
Qed.

Lemma get_own_None o k : JS.get_own o k = None <-> ~ In k (JS.keys o).
Proof.
  induction o as [|[k' v'] o IH]; simpl; [tauto|].
  destruct (String.eqb k' k) eqn:E.
  - apply String.eqb_eq in E; subst. split; [discriminate|tauto].
  - apply String.eqb_neq in E. rewrite IH. tauto.
Qed.

Lemma has_own_true o k : JS.has_own o k = true <-> In k (JS.keys o).
Proof.
  unfold JS.has_own. destruct (JS.get_own o k) eqn:E.
  - split; auto. intros _. apply get_own_In in E.
    apply (in_map fst) in E. exact E.
  - apply get_own_None in E. split; [discriminate|tauto].
Qed.

Lemma has_own_false o k : JS.has_own o k = false <-> ~ In k (JS.keys o).
Proof.
  rewrite <- has_own_true. destruct (JS.has_own o k); split; congruence.
Qed.

Lemma In_get_own o k v :
  NoDup (JS.keys o) -> In (k, v) o -> JS.get_own o k = Some v.
Proof.
  induction o as [|[k' v'] o IH]; simpl; [tauto|].
  intros Hnd [H|H]; inversion Hnd; subst.
  - inversion H; subst. rewrite String.eqb_refl. reflexivity.
  - destruct (String.eqb k' k) eqn:E; auto.
    apply String.eqb_eq in E; subst.
    apply (in_map fst) in H. contradiction.
Qed.

Lemma keys_update o k v : JS.keys (JS.update o k v) = JS.keys o.
Proof.
  induction o as [|[k' v'] o IH]; simpl; auto.
  destruct (String.eqb k' k); simpl; congruence.
Qed.

Lemma In_update o k v k' v' :
  NoDup (JS.keys o) ->
  In (k', v') (JS.update o k v) ->
  (k', v') = (k, v) \/ (In (k', v') o /\ k' <> k).
Proof.
  induction o as [|[k0 v0] o IH]; simpl; [tauto|].
  intros Hnd; inversion Hnd as [|? ? Hk0 Hnd']; subst.
  destruct (String.eqb k0 k) eqn:E.
  - apply String.eqb_eq in E; subst. simpl. intros [H|H].
    + left; congruence.
    + right. split; auto. intros ->.
      apply (in_map fst) in H. contradiction.
  - apply String.eqb_neq in E. simpl. intros [H|H].
    + inversion H; subst. right. auto.
    + destruct (IH Hnd' H) as [?|[? ?]]; auto.
Qed.

Lemma In_insert_index n o k v kv :
  In kv (JS.insert_index n k v o) <-> kv = (k, v) \/ In kv o.
Proof.
  induction o as [|[k0 v0] o IH]; simpl.
  - intuition congruence.
  - destruct (JS.array_index k0) as [m|].
    + destruct (m <=? n)%N; simpl; rewrite ?IH; intuition congruence.
    + simpl. intuition congruence.
Qed.

Lemma keys_insert_index_In n o k v k' :
  In k' (JS.keys (JS.insert_index n k v o)) <-> k' = k \/ In k' (JS.keys o).
Proof.
  induction o as [|[k0 v0] o IH]; simpl.
  - intuition congruence.
  - destruct (JS.array_index k0) as [m|].
    + destruct (m <=? n)%N; simpl; rewrite ?IH; intuition congruence.
    + simpl. intuition congruence.
Qed.

Lemma keys_set_In o k v k' :
  In k' (JS.keys (JS.set o k v)) <-> k' = k \/ In k' (JS.keys o).
Proof.
  unfold JS.set. destruct (JS.has_own o k) eqn:E.
  - rewrite keys_update. apply has_own_true in E.
    split; [auto|]. intros [->|H]; auto.
  - destruct (JS.array_index k).
    + apply keys_insert_index_In.
    + unfold JS.keys. rewrite map_app, in_app_iff. simpl. intuition congruence.
Qed.

Lemma In_set o k v k' v' :
  NoDup (JS.keys o) ->
  In (k', v') (JS.set o k v) ->
  (k', v') = (k, v) \/ (In (k', v') o /\ k' <> k).
Proof.
  intros Hnd. unfold JS.set. destruct (JS.has_own o k) eqn:E.
  - apply In_update; auto.
  - apply has_own_false in E.
    assert (Hne : In (k', v') o -> k' <> k).
    { intros H ->. apply (in_map fst) in H. contradiction. }
    destruct (JS.array_index k).
    + rewrite In_insert_index. intros [H|H]; auto.
    + rewrite in_app_iff. simpl. intros [H|[H|[]]]; auto.
Qed.

Lemma Forall_update (Q : string * V -> Prop) o k v :
  Forall Q o -> Q (k, v) -> Forall Q (JS.update o k v).
Proof.
  intros Ho Hkv. induction o as [|[k0 v0] o IH]; simpl; auto.
  inversion Ho; subst.
  destruct (String.eqb k0 k) eqn:E; constructor; auto.
  apply String.eqb_eq in E; subst; auto.
Qed.

Lemma Forall_set (Q : string * V -> Prop) o k v :
  Forall Q o -> Q (k, v) -> Forall Q (JS.set o k v).
Proof.
  intros Ho Hkv. unfold JS.set. destruct (JS.has_own o k).
  - apply Forall_update; auto.
  - destruct (JS.array_index k).
    + apply Forall_forall. intros kv H. apply In_insert_index in H.
      destruct H as [->|H]; auto. rewrite Forall_forall in Ho; auto.
    + apply Forall_app; auto.
Qed.

Lemma Forall_fold_set (Q : string * V -> Prop) es o :
  Forall Q o -> Forall Q es -> Forall Q (fold_left put es o).
Proof.
  revert o. induction es as [|[k v] es IH]; simpl; intros o Ho Hes; auto.
  inversion Hes; subst. apply IH; auto. apply Forall_set; auto.
Qed.

Lemma Forall_fromEntries (Q : string * V -> Prop) es :
  Forall Q es -> Forall Q (JS.fromEntries es).
Proof. intros H. unfold JS.fromEntries. apply Forall_fold_set; auto. Qed.

Lemma keys_fold_set_In es o k :
  In k (JS.keys (fold_left put es o)) <-> In k (JS.keys es) \/ In k (JS.keys o).
Proof.
  revert o. induction es as [|[k0 v0] es IH]; simpl; intros o; [tauto|].
  rewrite IH, keys_set_In. intuition congruence.
Qed.

Lemma NoDup_insert_index n o k v :
  ~ In k (JS.keys o) -> NoDup (JS.keys o) ->
  NoDup (JS.keys (JS.insert_index n k v o)).
Proof.
  induction o as [|[k0 v0] o IH]; simpl; intros Hk Hnd.
  - constructor; auto.
  - inversion Hnd; subst.
    assert (Hins : NoDup (k0 :: JS.keys (JS.insert_index n k v o))).
    { constructor; [|apply IH; tauto].
      rewrite keys_insert_index_In. intuition congruence. }
    destruct (JS.array_index k0) as [m|]; [destruct (m <=? n)%N|]; simpl; auto;
      constructor; simpl; auto.
Qed.

Lemma NoDup_set o k v : NoDup (JS.keys o) -> NoDup (JS.keys (JS.set o k v)).
Proof.
  intros Hnd. unfold JS.set. destruct (JS.has_own o k) eqn:E.
  - rewrite keys_update; auto.
  - apply has_own_false in E. destruct (JS.array_index k).
    + apply NoDup_insert_index; auto.
    + unfold JS.keys. rewrite map_app. simpl.
      apply NoDup_app; auto.
      * constructor; [simpl; tauto | constructor].
      * intros x Hx [<-|[]]. contradiction.
Qed.

Lemma NoDup_fold_set es o :
  NoDup (JS.keys o) -> NoDup (JS.keys (fold_left put es o)).
Proof.
  revert o. induction es as [|[k v] es IH]; simpl; intros o Ho; auto.
  apply IH, NoDup_set, Ho.
Qed.

(** Where a property of the object built by a run of assignments comes
    from: the last assignment to its key, or the object the run
    started from. *)
Lemma In_fold_set es o k v :
  NoDup (JS.keys o) ->
  In (k, v) (fold_left put es o) ->
  In (k, v) es \/ (In (k, v) o /\ ~ In k (JS.keys es)).
Proof.
  revert o. induction es as [|[k0 v0] es IH]; simpl; intros o Hnd H; auto.
  destruct (IH _ (NoDup_set _ k0 v0 Hnd) H) as [H1|[H1 H2]]; auto.
  apply In_set in H1; auto. destruct H1 as [H1|[H1 H3]]; auto.
  right. split; auto. intros [?|?]; auto.
Qed.

Lemma sorted_insert_index n o k v :
  JS.array_index k = Some n ->
  StronglySorted key_le (JS.keys o) ->
  StronglySorted key_le (JS.keys (JS.insert_index n k v o)).
Proof.
  intros Hk. induction o as [|[k0 v0] o IH]; simpl; intros Hs.
  - repeat constructor.
  - inversion Hs as [|? ? Hs' Hall]; subst.
    assert (Hstop : key_le k k0 -> StronglySorted key_le (k :: k0 :: JS.keys o)).
    { intros Hle. constructor; auto. constructor; auto.
      rewrite Forall_forall in *. intros x Hx.
      eapply key_le_trans; eauto. }
    destruct (JS.array_index k0) as [m|] eqn:E0.
    + destruct (m <=? n)%N eqn:Em; simpl.
      * constructor; auto. rewrite Forall_forall in *. intros x Hx.
        apply keys_insert_index_In in Hx. destruct Hx as [->|Hx]; auto.
        unfold key_le. rewrite E0, Hk. apply N.leb_le; auto.
      * apply Hstop. unfold key_le. rewrite E0, Hk.
        apply N.leb_gt in Em. lia.
    + simpl. apply Hstop. unfold key_le. rewrite E0, Hk. exact I.
Qed.

Lemma sorted_set o k v :
  StronglySorted key_le (JS.keys o) ->
  StronglySorted key_le (JS.keys (JS.set o k v)).
Proof.
  intros Hs. unfold JS.set. destruct (JS.has_own o k).
  - rewrite keys_update; auto.
  - destruct (JS.array_index k) as [n|] eqn:Ek.
    + apply sorted_insert_index; auto.
    + unfold JS.keys in *. rewrite map_app. simpl.
      revert Hs. generalize (map fst o) as ks.
      induction ks as [|k0 ks IH]; simpl; intros Hs.
      * repeat constructor.
      * inversion Hs; subst. constructor; auto.
        apply Forall_app; split; auto. constructor; auto.
        unfold key_le. rewrite Ek. destruct (JS.array_index k0); exact I.
Qed.

Lemma wf_keys_set o k v : wf_keys (JS.keys o) -> wf_keys (JS.keys (JS.set o k v)).
Proof.
  intros [H1 H2]. split; [apply NoDup_set | apply sorted_set]; auto.
Qed.

Lemma wf_keys_fold_set es o :
  wf_keys (JS.keys o) -> wf_keys (JS.keys (fold_left put es o)).
Proof.
  revert o. induction es as [|[k v] es IH]; simpl; intros o Ho; auto.
  apply IH, wf_keys_set, Ho.
Qed.

Lemma wf_keys_fromEntries (es : list (string * V)) :
  wf_keys (JS.keys (JS.fromEntries es)).
Proof.
  apply wf_keys_fold_set. split; constructor.
Qed.

End ObjectFacts.

Lemma mem_true (k : string) (ks : list string) : mem k ks = true <-> In k ks.
Proof.
  unfold mem. rewrite existsb_exists. split.
  - intros (x & Hx & E). apply String.eqb_eq in E. subst. auto.
  - intros H. exists k. split; auto. apply String.eqb_refl.
Qed.

Lemma mem_false (k : string) (ks : list string) : mem k ks = false <-> ~ In k ks.
Proof.
  rewrite <- mem_true. destruct (mem k ks); split; congruence.
Qed.

Lemma sorted_before {A} (R : A -> A -> Prop) (l1 l2 : list A) (x : A) :
  StronglySorted R (l1 ++ x :: l2) -> Forall (fun y => R y x) l1.
Proof.
  induction l1 as [|a l1 IH]; simpl; intros H; constructor;
    inversion H as [|? ? Hs Hall]; subst; auto.
  rewrite Forall_forall in Hall. apply Hall, in_elt.
Qed.

Section ObjectKeys.
Context {V W : Type}.

Abbreviation putV :=
  (fun (o : JS.Obj V) (kv : string * V) => JS.set o (fst kv) (snd kv)).
Abbreviation putW :=
  (fun (o : JS.Obj W) (kv : string * W) => JS.set o (fst kv) (snd kv)).

Lemma has_own_congr (o : JS.Obj V) (o' : JS.Obj W) k :
  JS.keys o = JS.keys o' -> JS.has_own o k = JS.has_own o' k.
Proof.
  intros E. destruct (JS.has_own o' k) eqn:E'.
  - apply has_own_true. rewrite E. apply has_own_true; auto.
  - apply has_own_false. rewrite E. apply has_own_false; auto.
Qed.

Lemma keys_insert_index_congr n k v w (o : JS.Obj V) (o' : JS.Obj W) :
  JS.keys o = JS.keys o' ->
  JS.keys (JS.insert_index n k v o) = JS.keys (JS.insert_index n k w o').
Proof.
  revert o'. induction o as [|[k0 v0] o IH]; intros [|[k1 w1] o']; simpl;
    try discriminate; auto.
  intros E; inversion E; subst.
  destruct (JS.array_index k1) as [m|]; [destruct (m <=? n)%N|]; simpl;
    f_equal; auto; f_equal; auto.
Qed.

(** The keys of [o[k] = v] and their order depend on the keys of [o]
    and on [k] alone. *)
Lemma keys_set_congr k v w (o : JS.Obj V) (o' : JS.Obj W) :
  JS.keys o = JS.keys o' ->
  JS.keys (JS.set o k v) = JS.keys (JS.set o' k w).
Proof.
  intros E. unfold JS.set. rewrite (has_own_congr o o' k E).
  destruct (JS.has_own o' k).
  - rewrite !keys_update; auto.
  - destruct (JS.array_index k).
    + apply keys_insert_index_congr; auto.
    + unfold JS.keys in *. rewrite !map_app. simpl. congruence.
Qed.

Lemma keys_fold_set_congr (es : list (string * V)) (es' : list (string * W))
    (o : JS.Obj V) (o' : JS.Obj W) :
  JS.keys es = JS.keys es' -> JS.keys o = JS.keys o' ->
  JS.keys (fold_left putV es o) = JS.keys (fold_left putW es' o').
Proof.
  revert es' o o'. induction es as [|[k v] es IH]; intros [|[k' w] es'] o o';
    simpl; try discriminate; auto.
  intros E Eo; inversion E; subst. apply IH; auto.
  apply keys_set_congr; auto.
Qed.

End ObjectKeys.

Section ObjectCopy.
Context {V : Type}.
Implicit Types (o : JS.Obj V) (k : string) (v : V).

Abbreviation put1 :=
  (fun (o : JS.Obj V) (kv : string * V) => JS.set o (fst kv) (snd kv)).

Lemma insert_index_last n o k v :
  JS.array_index k = Some n ->
  Forall (fun k0 => key_le k0 k) (JS.keys o) ->
  JS.insert_index n k v o = o ++ [(k, v)].
Proof.
  intros Hk. induction o as [|[k0 v0] o IH]; simpl; intros H; auto.
  inversion H as [|? ? Hle Hall]; subst. unfold key_le in Hle. rewrite Hk in Hle.
  destruct (JS.array_index k0) as [m|]; [|contradiction].
  apply N.leb_le in Hle. rewrite Hle. f_equal; auto.
Qed.

Lemma set_next acc o k v :
  wf_keys (JS.keys (acc ++ (k, v) :: o)) -> JS.set acc k v = acc ++ [(k, v)].
Proof.
  unfold JS.keys. rewrite map_app. simpl. intros [Hnd Hs].
  unfold JS.set.
  assert (E : JS.has_own acc k = false).
  { apply has_own_false. apply NoDup_remove_2 in Hnd.
    unfold JS.keys. intros H. apply Hnd, in_or_app. auto. }
  rewrite E. destruct (JS.array_index k) as [n|] eqn:Ek; auto.
  apply insert_index_last; auto. apply (sorted_before _ _ _ Hs).
Qed.

(** Copying a well-formed object property by property rebuilds it. *)
Lemma fold_set_copy o acc :
  wf_keys (JS.keys (acc ++ o)) -> fold_left put1 o acc = acc ++ o.
Proof.
  revert acc. induction o as [|[k v] o IH]; simpl; intros acc H.
  - rewrite app_nil_r; auto.
  - rewrite (set_next _ _ _ _ H).
    replace (acc ++ (k, v) :: o) with ((acc ++ [(k, v)]) ++ o) in *
      by (rewrite <- app_assoc; reflexivity).
    apply IH; auto.
Qed.

Lemma fromEntries_copy o : wf_keys (JS.keys o) -> JS.fromEntries o = o.
Proof. intros H. apply (fold_set_copy o []). exact H. Qed.

(** Assigning fresh keys that are not array indices appends them. *)
Lemma keys_fold_set_plain es acc :
  (forall k, In k (JS.keys es) -> JS.array_index k = None) ->
  NoDup (JS.keys es) ->
  JS.keys (fold_left put1 es acc)
  = JS.keys acc ++ filter (fun k => negb (mem k (JS.keys acc))) (JS.keys es).
Proof.
  revert acc. induction es as [|[k v] es IH]; simpl; intros acc Hplain Hnd.
  - rewrite app_nil_r; auto.
  - inversion Hnd as [|? ? Hk Hnd']; subst.
    rewrite IH; auto. unfold JS.set.
    destruct (JS.has_own acc k) eqn:E.
    + rewrite keys_update. apply has_own_true in E.
      apply mem_true in E. rewrite E. reflexivity.
    + apply has_own_false in E. rewrite (Hplain k) by auto.
      apply mem_false in E. rewrite E. simpl.
      unfold JS.keys at 1. rewrite map_app, <- app_assoc. simpl.
      f_equal. f_equal. apply filter_ext_in. intros x Hx.
      f_equal. unfold JS.keys. rewrite map_app. unfold mem.
      rewrite existsb_app. simpl.
      destruct (String.eqb x k) eqn:Ex; [|rewrite !orb_false_r; auto].
      apply String.eqb_eq in Ex; subst. contradiction.
Qed.

End ObjectCopy.

(* ------------------------------------------------------------------ *)
(** * Facts about [mapM] and the template scanner                      *)
(* ------------------------------------------------------------------ *)

Section MapM.
Context {A B : Type} (f : A -> Result B).

Lemma mapM_Return xs ys :
  mapM f xs = Return ys -> Forall2 (fun x y => f x = Return y) xs ys.
Proof.
  revert ys. induction xs as [|x xs IH]; simpl; intros ys H.
  - inversion H. constructor.
  - destruct (f x) as [y|e] eqn:Ex; simpl in H; [|discriminate].
    destruct (mapM f xs) as [ys'|e]; simpl in H; [|discriminate].
    inversion H; subst. constructor; auto.
Qed.

Lemma mapM_Throw xs e :
  mapM f xs = Throw e -> exists x, In x xs /\ f x = Throw e.
Proof.
  induction xs as [|x xs IH]; simpl; [discriminate|].
  destruct (f x) as [y|e'] eqn:Ex; simpl.
  - destruct (mapM f xs) as [ys'|e'']; simpl; [discriminate|].
    intros H; inversion H; subst. destruct IH as (x' & ? & ?); eauto.
  - intros H; inversion H; subst. eauto.
Qed.

Lemma mapM_total xs :
  (forall x, In x xs -> exists y, f x = Return y) ->
  exists ys, mapM f xs = Return ys.
Proof.
  induction xs as [|x xs IH]; simpl; intros H; eauto.
  destruct (H x) as [y Hy]; auto. rewrite Hy. simpl.
  destruct IH as [ys Hys]; auto. rewrite Hys. simpl. eauto.
Qed.

(** When every throw of the callback carries the same error, one
    throwing element makes the whole map throw it. *)
Lemma mapM_throws xs e0 :
  (forall x e, In x xs -> f x = Throw e -> e = e0) ->
  (exists x, In x xs /\ f x = Throw e0) ->
  mapM f xs = Throw e0.
Proof.
  intros Hall (x & Hin & Hx).
  destruct (mapM f xs) as [ys|e] eqn:E.
  - apply mapM_Return in E. exfalso. clear Hall.
    induction E as [|x' y' xs' ys' Hxy _ IH]; simpl in Hin; [tauto|].
    destruct Hin as [->|Hin]; [congruence | auto].
  - apply mapM_Throw in E. destruct E as (x' & Hin' & Hx').
    f_equal. eauto.
Qed.

End MapM.

Lemma exec_at_capture (s name rest : string) :
  RegExp.exec_at s = Some (name, rest) -> name <> "".
Proof.
  intros H. apply RegExp.exec_at_inv in H as (s' & c & w & _ & -> & _).
  discriminate.
Qed.

(** Every capture of [/\{(\w+)\}/g] holds at least one character. *)
Lemma matchAll_nonempty (path : string) :
  Forall (fun key => key <> "") (RegExp.matchAll path).
Proof.
  funelim (RegExp.matchAll path); simp matchAll.
  - constructor.
  - constructor; auto. eapply exec_at_capture; eauto.
Qed.

(* ------------------------------------------------------------------ *)
(** * Facts about the zod helpers                                      *)
(* ------------------------------------------------------------------ *)

Lemma zodInstanceof_ZodObject (schema : ZodType) :
  zodInstanceof schema ZodFirstPartyTypeKind.ZodObject = true ->
  exists shape, schema = ZodObject shape.
Proof.
  destruct schema as [shape| | | | | | | |[]|]; try discriminate. eauto.
Qed.

Lemma zodInstanceof_ZodString (schema : ZodType) :
  zodInstanceof schema ZodFirstPartyTypeKind.ZodString = true ->
  exists checks, schema = ZodString checks.
Proof.
  destruct schema as [|checks| | | | | | |[]|]; try discriminate. eauto.
Qed.

Lemma zodInstanceof_typeName (schema : ZodType) (k : ZodFirstPartyTypeKind.t) :
  zodInstanceof schema k = true <-> typeName schema = Some k.
Proof.
  unfold zodInstanceof, ZodFirstPartyTypeKind.eqb.
  destruct (typeName schema) as [k'|]; [|split; discriminate].
  destruct (ZodFirstPartyTypeKind.eq_dec k' k); split; congruence.
Qed.

(** A node that unwraps to a string is a schema. *)
Lemma string_base_is_schema (value : ZodType) :
  zodInstanceof (getBaseZodType value) ZodFirstPartyTypeKind.ZodString = true ->
  zodInstanceofZodType value = true.
Proof.
  destruct value as [| | | | | | | |[]|]; simpl; auto; discriminate.
Qed.

Lemma get_own_get (shape : JS.Obj ZodType) (key : string) (value : ZodType) :
  JS.get_own shape key = Some value -> get shape key = value.
Proof. unfold get. intros ->. reflexivity. Qed.

Lemma get_In (shape : JS.Obj ZodType) (key : string) :
  In key (JS.keys shape) -> In (key, get shape key) shape.
Proof.
  intros H. unfold get. destruct (JS.get_own shape key) eqn:E.
  - apply get_own_In; auto.
  - apply get_own_None in E. contradiction.
Qed.

Lemma get_schema_own (shape : JS.Obj ZodType) (key : string) :
  zodInstanceofZodType (get shape key) = true -> In key (JS.keys shape).
Proof.
  unfold get. destruct (JS.get_own shape key) eqn:E.
  - intros _. apply get_own_In in E. apply (in_map fst) in E. exact E.
  - destruct (JS.inherited key); discriminate.
Qed.

Lemma get_missing (shape : JS.Obj ZodType) (key : string) :
  ~ In key (JS.keys shape) -> JS.inherited key = false ->
  get shape key = NotZod undefined.
Proof.
  intros H1 H2. unfold get. apply get_own_None in H1. rewrite H1, H2. reflexivity.
Qed.

Section OmitFacts.

Abbreviation putZ :=
  (fun (o : JS.Obj ZodType) (kv : string * ZodType) => JS.set o (fst kv) (snd kv)).

Lemma has_own_set_other (o : JS.Obj ZodType) (k k' : string) (v : ZodType) :
  JS.has_own o k' = false -> k <> k' -> JS.has_own (JS.set o k v) k' = false.
Proof.
  intros H Hne. apply has_own_false. rewrite keys_set_In.
  apply has_own_false in H. intros [?|?]; congruence.
Qed.

Lemma omit_fold (shape : JS.Obj ZodType) (maskKeys ks : list string) acc :
  JS.has_own acc "__proto__" = false ->
  fold_left
    (fun shape' key =>
       if existsb (String.eqb key) maskKeys then shape'
       else JS.assign shape' key (get shape key)) ks acc
  = fold_left putZ
      (map (fun key => (key, get shape key)) (filter (kept maskKeys) ks)) acc.
Proof.
  revert acc. induction ks as [|k ks IH]; simpl; intros acc Hacc; auto.
  unfold kept at 1, mem at 1.
  destruct (existsb (String.eqb k) maskKeys); simpl; auto.
  unfold JS.assign. destruct (String.eqb k "__proto__") eqn:Ek; simpl.
  - apply String.eqb_eq in Ek. subst k. rewrite Hacc. simpl. auto.
  - apply String.eqb_neq in Ek. apply IH. apply has_own_set_other; auto.
Qed.

Lemma omit_shape (shape : JS.Obj ZodType) (mask : JS.Obj bool) :
  z.shape (z.omit (ZodObject shape) mask)
  = JS.fromEntries
      (map (fun key => (key, get shape key))
           (filter (kept (JS.keys mask)) (JS.keys shape))).
Proof. unfold z.omit. simpl. apply omit_fold. reflexivity. Qed.

Lemma kept_true (maskKeys : list string) (key : string) :
  kept maskKeys key = true <-> ~ In key maskKeys /\ key <> "__proto__".
Proof.
  unfold kept. rewrite andb_true_iff, !negb_true_iff, mem_false, String.eqb_neq.
  tauto.
Qed.

Lemma omit_keys (shape : JS.Obj ZodType) (mask : JS.Obj bool) (key : string) :
  In key (JS.keys (z.shape (z.omit (ZodObject shape) mask)))
  <-> In key (JS.keys shape) /\ ~ In key (JS.keys mask) /\ key <> "__proto__".
Proof.
  rewrite omit_shape. unfold JS.fromEntries. rewrite keys_fold_set_In.
  unfold JS.keys at 1. rewrite map_map. simpl. rewrite map_id.
  rewrite filter_In, kept_true. simpl. tauto.
Qed.

Lemma omit_entries (shape : JS.Obj ZodType) (mask : JS.Obj bool) :
  Forall (fun kv => snd kv = get shape (fst kv))
         (z.shape (z.omit (ZodObject shape) mask)).
Proof.
  rewrite omit_shape. apply Forall_fromEntries.
  apply Forall_forall. intros kv H. apply in_map_iff in H.
  destruct H as (k & <- & _). reflexivity.
Qed.

Lemma omit_wf (shape : JS.Obj ZodType) (mask : JS.Obj bool) :
  wf_keys (JS.keys (z.shape (z.omit (ZodObject shape) mask))).
Proof. rewrite omit_shape. apply wf_keys_fromEntries. Qed.

(** Reading a field of the reduced object gives the field of the
    original one. *)
Lemma omit_get (shape : JS.Obj ZodType) (mask : JS.Obj bool) (key : string) :
  In key (JS.keys (z.shape (z.omit (ZodObject shape) mask))) ->
  get (z.shape (z.omit (ZodObject shape) mask)) key = get shape key.
Proof.
  intros H. apply get_In in H.
  pose proof (omit_entries shape mask) as Hall.
  rewrite Forall_forall in Hall. apply (Hall _ H).
Qed.

End OmitFacts.

Lemma mask_keys (ks : list string) (key : string) :
  In key (JS.keys (JS.fromEntries (map (fun k => (k, true)) ks))) <-> In key ks.
Proof.
  unfold JS.fromEntries. rewrite keys_fold_set_In.
  unfold JS.keys at 1. rewrite map_map. simpl. rewrite map_id. simpl. tauto.
Qed.

(* ------------------------------------------------------------------ *)
(** * Facts about the partition                                        *)
(* ------------------------------------------------------------------ *)

Section PartitionFacts.

Variable ZodObject_own_keys : list string.

Abbreviation partition := (extractPathSchema ZodObject_own_keys).

Lemma pathSegmentEntry_Return shape key kv :
  pathSegmentEntry shape key = Return kv ->
  kv = (key, get shape key) /\ is_nullish (get shape key) = false.
Proof.
  unfold pathSegmentEntry. destruct (String.eqb key ""); [discriminate|].
  destruct (is_nullish (get shape key)); [discriminate|].
  intros H; inversion H; auto.
Qed.

Lemma pathSegmentEntry_Throw shape key e :
  pathSegmentEntry shape key = Throw e ->
  (key = "" /\ e = MalformedSegment)
  \/ (is_nullish (get shape key) = true /\ e = UnknownPathField key).
Proof.
  unfold pathSegmentEntry. destruct (String.eqb key "") eqn:E.
  - apply String.eqb_eq in E. intros H; inversion H; auto.
  - destruct (is_nullish (get shape key)); [|discriminate].
    intros H; inversion H; auto.
Qed.

Lemma segment_entries shape names entries :
  mapM (pathSegmentEntry shape) names = Return entries ->
  entries = map (fun key => (key, get shape key)) names
  /\ Forall (fun key => is_nullish (get shape key) = false) names.
Proof.
  intros H. apply mapM_Return in H.
  induction H as [|key kv names entries Hk _ [IH1 IH2]]; simpl; auto.
  apply pathSegmentEntry_Return in Hk. destruct Hk as [-> Hk].
  subst. auto.
Qed.

(** What a successful partition returns. *)
Lemma extractPathSchema_Return schema path pathParams restParams :
  partition schema path = Return (pathParams, restParams) ->
  exists shape,
    schema = ZodObject shape
    /\ Forall (fun key => is_nullish (get shape key) = false)
              (RegExp.matchAll path)
    /\ pathParams
       = ZodObject (JS.fromEntries
                      (map (fun key => (key, get shape key))
                           (RegExp.matchAll path)))
    /\ restParams
       = z.omit schema
           (JS.fromEntries (map (fun k => (k, true)) ZodObject_own_keys)).
Proof.
  unfold extractPathSchema.
  destruct (zodInstanceofZodType schema); simpl; [|discriminate].
  destruct (zodInstanceof schema ZodFirstPartyTypeKind.ZodObject) eqn:E;
    simpl; [|discriminate].
  apply zodInstanceof_ZodObject in E. destruct E as [shape ->]. simpl.
  destruct (mapM (pathSegmentEntry shape) (RegExp.matchAll path))
    as [entries|e] eqn:Em; simpl; [|discriminate].
  apply segment_entries in Em. destruct Em as [-> Hall].
  intros H; inversion H; subst. exists shape. auto.
Qed.

(** The only throws of a partition. *)
Lemma extractPathSchema_Throw schema path e :
  partition schema path = Throw e ->
  (zodInstanceofZodType schema = false /\ e = NotASchema)
  \/ (zodInstanceofZodType schema = true
      /\ zodInstanceof schema ZodFirstPartyTypeKind.ZodObject = false
      /\ e = ObjectKindRequired)
  \/ (exists key, In key (RegExp.matchAll path)
                  /\ is_nullish (get (z.shape schema) key) = true
                  /\ e = UnknownPathField key).
Proof.
  unfold extractPathSchema.
  destruct (zodInstanceofZodType schema); simpl;
    [|intros H; inversion H; auto].
  destruct (zodInstanceof schema ZodFirstPartyTypeKind.ZodObject) eqn:E;
    simpl; [|intros H; inversion H; auto].
  destruct (mapM (pathSegmentEntry (z.shape schema)) (RegExp.matchAll path))
    as [entries|e'] eqn:Em; simpl; [discriminate|].
  intros H; inversion H; subst.
  apply mapM_Throw in Em. destruct Em as (key & Hin & Hk).
  apply pathSegmentEntry_Throw in Hk. destruct Hk as [[-> _]|[Hn ->]].
  - pose proof (matchAll_nonempty path) as Hne.
    rewrite Forall_forall in Hne. exfalso. exact (Hne _ Hin eq_refl).
  - right. right. eauto.
Qed.

(** The fields of [pathParams] are the captured names, each bound to
    the node [shape[key]] of the input. *)
Lemma pathParams_keys shape path key :
  In key (JS.keys (JS.fromEntries
                     (map (fun key => (key, get shape key))
                          (RegExp.matchAll path))))
  <-> In key (RegExp.matchAll path).
Proof.
  unfold JS.fromEntries. rewrite keys_fold_set_In.
  unfold JS.keys at 1. rewrite map_map. simpl. rewrite map_id. simpl. tauto.
Qed.

Lemma pathParams_get shape path key :
  In key (RegExp.matchAll path) ->
  get (JS.fromEntries
         (map (fun key => (key, get shape key)) (RegExp.matchAll path))) key
  = get shape key.
Proof.
  intros H. apply (proj2 (pathParams_keys shape path key)) in H.
  apply get_In in H.
  assert (Hall : Forall (fun kv => snd kv = get shape (fst kv))
                   (JS.fromEntries
                      (map (fun key => (key, get shape key))
                           (RegExp.matchAll path)))).
  { apply Forall_fromEntries.
    apply Forall_forall. intros kv Hkv. apply in_map_iff in Hkv.
    destruct Hkv as (k & <- & _). reflexivity. }
  rewrite Forall_forall in Hall. apply (Hall _ H).
Qed.

Lemma restParams_keys shape key :
  In key (JS.keys (z.shape
                     (z.omit (ZodObject shape)
                        (JS.fromEntries
                           (map (fun k => (k, true)) ZodObject_own_keys)))))
  <-> In key (JS.keys shape) /\ ~ In key ZodObject_own_keys
      /\ key <> "__proto__".
Proof. rewrite omit_keys, mask_keys. tauto. Qed.

End PartitionFacts.

(* ------------------------------------------------------------------ *)
(** * The type unwrapper                                               *)
(* ------------------------------------------------------------------ *)

(** C8. [getBaseZodType] follows the inner node of [ZodOptional],
    [ZodDefault] and [ZodEffects] wrappers, step by step, and returns the
    first node it reaches that is none of the three, as it is; a
    [ZodNullable] node is not unwrapped but returned as the base. *)
Theorem getBaseZodType_terminal :
  (forall schema : ZodType,
      unwraps_to schema (getBaseZodType schema)
      /\ is_wrapper (getBaseZodType schema) = false)
  /\ (forall innerType : ZodType,
         getBaseZodType (ZodNullable innerType) = ZodNullable innerType).
Proof.
  split; [|reflexivity].
  fix IH 1. intros schema.
  destruct schema as [shape|checks|inner|inner|inner d|inner e|v|t|k|v]; simpl;
    try (split; [constructor | reflexivity]).
  - destruct (IH inner) as [H1 H2]. split; auto.
    eapply unwraps_step; [constructor | exact H1].
  - destruct (IH inner) as [H1 H2]. split; auto.
    eapply unwraps_step; [constructor | exact H1].
  - destruct (IH inner) as [H1 H2]. split; auto.
    eapply unwraps_step; [constructor | exact H1].
  - destruct k; split; try constructor; reflexivity.
Qed.

(* ------------------------------------------------------------------ *)
(** * Properties of the generator                                      *)
(* ------------------------------------------------------------------ *)

Section GeneratorProperties.

Variable SchemaObject : Type.
Variable zodToJsonSchema : ZodType -> Options -> SchemaObject.
Variable ZodObject_own_keys : list string.

Abbreviation extract := (extractPathSchema ZodObject_own_keys).
Abbreviation params := (getParameterObjects zodToJsonSchema ZodObject_own_keys).
Abbreviation mutation :=
  (getMutationInputObjects zodToJsonSchema ZodObject_own_keys).
Abbreviation pathObjects := (schemaToPathParameterObjects zodToJsonSchema).

(** C9. No capture of the segment pattern is empty, so the guard of
    [extractPathSchema] that throws 'An invalid dynamic URL segment
    found.' on an empty key, present in the callback, never fires: no
    call of [extractPathSchema] throws that error. *)
Theorem MalformedSegment_unreachable :
  (forall shape : JS.Obj ZodType,
      pathSegmentEntry shape "" = Throw MalformedSegment)
  /\ (forall path : string,
         Forall (fun key => key <> "") (RegExp.matchAll path))
  /\ (forall (schema : ZodType) (path : string),
         extract schema path <> Throw MalformedSegment).
Proof.
  split; [reflexivity|]. split; [apply matchAll_nonempty|].
  intros schema path H. apply extractPathSchema_Throw in H.
  destruct H as [[_ H]|[(_ & _ & H)|(key & _ & _ & H)]]; discriminate.
Qed.

(** C6. On a schema that is not a [ZodObject] (a [ZodString], a
    [ZodOptional], a [ZodDefault], a [ZodEffects] or any other kind),
    [getParameterObjects] throws 'Input parser expects ZodObject' and
    returns no parameter list. *)
Theorem getParameterObjects_ObjectKindRequired
    (schema : ZodType) (path : string) (kind : ZodFirstPartyTypeKind.t) :
  typeName schema = Some kind ->
  kind <> ZodFirstPartyTypeKind.ZodObject ->
  params schema path = Throw ObjectKindRequired.
Proof.
  intros Hk Hne. unfold getParameterObjects, zodInstanceofZodType.
  rewrite Hk. simpl.
  destruct (zodInstanceof schema ZodFirstPartyTypeKind.ZodObject) eqn:E; auto.
  apply zodInstanceof_typeName in E. congruence.
Qed.

(** C7. For every output schema, [getResponsesObject] returns an
    object with the two keys 200 and default: 200 is an inline response
    whose application/json schema is the conversion of
    [z.object({ ok: z.literal(true), data: schema })], and default is
    the reference '#/components/responses/error', not an inline
    response. *)
Theorem getResponsesObject_entries (schema : ZodType) :
  zodInstanceofZodType schema = true ->
  exists responses,
    getResponsesObject zodToJsonSchema schema = Return responses
    /\ JS.keys responses = ["200"; "default"]
    /\ JS.get_own responses "200"
       = Some (Response
                 {| description := "Successful response";
                    content :=
                      [("application/json",
                        {| media_schema :=
                             zodToJsonSchema
                               (ZodObject
                                  [("ok", ZodLiteral (Vboolean true));
                                   ("data", schema)])
                               {| target := "openApi3" |} |})] |})
    /\ JS.get_own responses "default"
       = Some (Reference "#/components/responses/error").
Proof.
  intros H. unfold getResponsesObject. rewrite H. simpl.
  eexists. split; [reflexivity|]. repeat split.
Qed.

(** C10. Whenever [getMutationInputObjects] returns, the request body
    is required: the input is a plain [ZodObject] (an optional or
    default wrapped object is rejected by the partition), and the
    remainder [schema.omit(...)] is again a [ZodObject], which is never
    optional. *)
Theorem getMutationInputObjects_body_required :
  (forall (schema : ZodType) (path : string) result,
      mutation schema path = Return result ->
      body_required (requestBody result) = true
      /\ typeName schema = Some ZodFirstPartyTypeKind.ZodObject)
  /\ (forall (schema : ZodType) (path : string) pathParams restParams,
         extract schema path = Return (pathParams, restParams) ->
         typeName restParams = Some ZodFirstPartyTypeKind.ZodObject
         /\ z.isOptional restParams = false)
  /\ (forall (innerType : ZodType) (path : string),
         mutation (ZodOptional innerType) path = Throw ObjectKindRequired)
  /\ (forall (innerType : ZodType) defaultValue (path : string),
         mutation (ZodDefault innerType defaultValue) path
         = Throw ObjectKindRequired).
Proof.
  assert (Hrest : forall schema path pathParams restParams,
             extract schema path = Return (pathParams, restParams) ->
             typeName schema = Some ZodFirstPartyTypeKind.ZodObject
             /\ typeName restParams = Some ZodFirstPartyTypeKind.ZodObject
             /\ z.isOptional restParams = false).
  { intros schema path pp rp H.
    apply extractPathSchema_Return in H.
    destruct H as (shape & -> & _ & _ & ->). auto. }
  split; [|split; [|split; reflexivity]].
  - intros schema path result. unfold getMutationInputObjects.
    destruct (zodInstanceofZodType schema); simpl; [|discriminate].
    destruct (extract schema path) as [[pp rp]|e] eqn:E; simpl; [|discriminate].
    destruct (pathObjects pp) as [objs|e]; simpl; [|discriminate].
    intros H; inversion H; subst; simpl.
    destruct (Hrest _ _ _ _ E) as (H1 & _ & H3). rewrite H3. auto.
  - intros schema path pp rp H. destruct (Hrest _ _ _ _ H) as (_ & ? & ?). auto.
Qed.

Lemma queryParameterEntry_Throw restParams key e :
  queryParameterEntry zodToJsonSchema restParams key = Throw e ->
  e = StringFieldRequired.
Proof.
  unfold queryParameterEntry.
  destruct (zodInstanceof _ _); simpl; intros H; inversion H; auto.
Qed.

Lemma pathParameterEntry_Throw pathParams key e :
  pathParameterEntry zodToJsonSchema pathParams key = Throw e ->
  e = StringFieldRequired.
Proof.
  unfold pathParameterEntry.
  destruct (zodInstanceof _ _); simpl; intros H; inversion H; auto.
Qed.

(** A captured name that is neither a field of the schema nor a member
    of [Object.prototype] makes the partition, and with it both
    builders, throw 'A dynamic segment found with no matching input
    parameter'. *)
Lemma UnknownPathField_thrown shape path name :
  In name (RegExp.matchAll path) ->
  ~ In name (JS.keys shape) ->
  JS.inherited name = false ->
  exists key,
    extract (ZodObject shape) path = Throw (UnknownPathField key)
    /\ params (ZodObject shape) path = Throw (UnknownPathField key)
    /\ mutation (ZodObject shape) path = Throw (UnknownPathField key).
Proof.
  intros Hin Hown Hinh.
  destruct (extract (ZodObject shape) path) as [[pp rp]|e] eqn:E.
  - apply extractPathSchema_Return in E.
    destruct E as (shape' & Hs & Hall & _). inversion Hs; subst shape'.
    rewrite Forall_forall in Hall. specialize (Hall _ Hin).
    rewrite (get_missing _ _ Hown Hinh) in Hall. discriminate.
  - pose proof E as E'. apply extractPathSchema_Throw in E'.
    destruct E' as [[H _]|[(_ & H & _)|(key & _ & _ & ->)]];
      try discriminate.
    exists key. unfold getParameterObjects, getMutationInputObjects.
    simpl. rewrite E. auto.
Qed.

(** C5, at the input where it fails. The template names
    [constructor], which is no field of the empty object schema; the
    read [shape[key]] finds the member inherited from
    [Object.prototype], so the partition returns, and both builders
    throw 'Input parser expects ZodObject<{ [string]: ZodString }>'
    instead of 'A dynamic segment found with no matching input
    parameter'. *)
Theorem inherited_segment_name :
  In "constructor" (RegExp.matchAll "/{constructor}")
  /\ ~ In "constructor" (JS.keys (z.shape (z.object [])))
  /\ extract (z.object []) "/{constructor}"
     = Return (ZodObject [("constructor", NotZod foreign)], ZodObject [])
  /\ params (z.object []) "/{constructor}" = Throw StringFieldRequired
  /\ mutation (z.object []) "/{constructor}" = Throw StringFieldRequired.
Proof.
  repeat split; try reflexivity.
  - left; reflexivity.
  - simpl; tauto.
Qed.

(** C1, as the code has it. A successful partition puts the captured
    names in [pathParams]; [restParams] keeps every field of the schema
    but those named like an instance field of a [ZodObject] (and a
    field [__proto__], which the assignment of [omit] does not define),
    because the mask handed to [omit] is built from
    [Object.keys(pathParams)] and not from
    [Object.keys(pathParams.shape)]. A path field is therefore a field
    of both subsets. *)
Theorem extractPathSchema_fields schema path pathParams restParams :
  extract schema path = Return (pathParams, restParams) ->
  (forall key, In key (JS.keys (z.shape pathParams))
               <-> In key (RegExp.matchAll path))
  /\ (forall key, In key (JS.keys (z.shape restParams))
                  <-> In key (JS.keys (z.shape schema))
                      /\ ~ In key ZodObject_own_keys
                      /\ key <> "__proto__").
Proof.
  intros H. apply extractPathSchema_Return in H.
  destruct H as (shape & -> & _ & -> & ->). split; intros key.
  - apply pathParams_keys.
  - apply restParams_keys.
Qed.

(** C3. When the remainder of a partition has a field whose base kind
    is not [ZodString], [getParameterObjects] throws 'Input parser
    expects ZodObject<{ [string]: ZodString }>', while
    [getMutationInputObjects] looks at the path fields only: it returns
    as soon as these unwrap to strings, with the whole remainder,
    non-string fields included, as the schema of the request body. *)
Theorem non_string_remainder_field schema path pathParams restParams key :
  extract schema path = Return (pathParams, restParams) ->
  In key (JS.keys (z.shape restParams)) ->
  zodInstanceof (getBaseZodType (get (z.shape restParams) key))
    ZodFirstPartyTypeKind.ZodString = false ->
  params schema path = Throw StringFieldRequired
  /\ ((forall k, In k (JS.keys (z.shape pathParams)) ->
                 zodInstanceof (getBaseZodType (get (z.shape pathParams) k))
                   ZodFirstPartyTypeKind.ZodString = true) ->
      exists result,
        mutation schema path = Return result
        /\ JS.get_own (body_content (requestBody result)) "application/json"
           = Some {| media_schema :=
                       zodToJsonSchema restParams {| target := "openApi3" |} |}).
Proof.
  intros E Hin Hkind.
  pose proof E as E'. apply extractPathSchema_Return in E'.
  destruct E' as (shape & -> & _ & _ & _).
  split.
  - unfold getParameterObjects. simpl. rewrite E. simpl.
    rewrite (mapM_throws (queryParameterEntry zodToJsonSchema restParams)
               (JS.keys (z.shape restParams)) (e0 := StringFieldRequired)).
    + reflexivity.
    + intros x e _. apply queryParameterEntry_Throw.
    + exists key. split; auto. unfold queryParameterEntry.
      rewrite Hkind. reflexivity.
  - intros Hpath. unfold getMutationInputObjects. simpl. rewrite E. simpl.
    unfold schemaToPathParameterObjects.
    destruct (mapM_total (pathParameterEntry zodToJsonSchema pathParams)
                (JS.keys (z.shape pathParams))) as [entries Hentries].
    { intros k Hk. unfold pathParameterEntry. rewrite (Hpath k Hk).
      simpl. eauto. }
    rewrite Hentries. simpl. eexists. split; reflexivity.
Qed.

Lemma mapM_In {A B} (f : A -> Result B) xs ys y :
  mapM f xs = Return ys -> In y ys -> exists x, In x xs /\ f x = Return y.
Proof.
  intros H. apply mapM_Return in H.
  induction H as [|x y' xs ys Hxy _ IH]; simpl; [tauto|].
  intros [<-|Hy]; eauto. destruct (IH Hy) as (x' & ? & ?); eauto.
Qed.

Lemma mapM_keys {B} (f : string -> Result (string * B)) xs ys :
  (forall x y, f x = Return y -> fst y = x) ->
  mapM f xs = Return ys -> JS.keys ys = xs.
Proof.
  intros Hf H. apply mapM_Return in H.
  induction H as [|x y xs ys Hxy _ IH]; simpl; auto.
  f_equal; eauto.
Qed.

Lemma queryParameterEntry_Return restParams key kv :
  queryParameterEntry zodToJsonSchema restParams key = Return kv ->
  fst kv = key
  /\ name (snd kv) = key
  /\ in_ (snd kv) = Query
  /\ required (snd kv) = negb (z.isOptional (get (z.shape restParams) key)).
Proof.
  unfold queryParameterEntry.
  destruct (zodInstanceof _ _); simpl; intros H; inversion H; subst; simpl; auto.
Qed.

Lemma pathParameterEntry_Return pathParams key kv :
  pathParameterEntry zodToJsonSchema pathParams key = Return kv ->
  fst kv = key
  /\ name (snd kv) = key
  /\ in_ (snd kv) = Path
  /\ required (snd kv) = negb (z.isOptional (get (z.shape pathParams) key)).
Proof.
  unfold pathParameterEntry.
  destruct (zodInstanceof _ _); simpl; intros H; inversion H; subst; simpl; auto.
Qed.

Lemma values_In {B} (o : JS.Obj B) v :
  In v (JS.values o) -> exists k, In (k, v) o.
Proof.
  unfold JS.values. rewrite in_map_iff. intros ([k v'] & <- & H). eauto.
Qed.

Lemma names_keys (o : JS.Obj (ParameterObject SchemaObject)) :
  Forall (fun kv => name (snd kv) = fst kv) o ->
  map (@name SchemaObject) (JS.values o) = JS.keys o.
Proof.
  induction 1 as [|[k v] o Hkv _ IH]; simpl; auto. f_equal; auto.
Qed.

Lemma spread_fold {B} (a b : JS.Obj B) :
  JS.spread a b
  = fold_left (fun o kv => JS.set o (fst kv) (snd kv)) b (JS.fromEntries a).
Proof. unfold JS.spread, JS.fromEntries. apply fold_left_app. Qed.

(** The steps of a call of [getParameterObjects] that returns. *)
Lemma getParameterObjects_Return schema path objects :
  params schema path = Return objects ->
  exists pathParams restParams queryEntries pathEntries,
    extract schema path = Return (pathParams, restParams)
    /\ mapM (queryParameterEntry zodToJsonSchema restParams)
          (JS.keys (z.shape restParams)) = Return queryEntries
    /\ mapM (pathParameterEntry zodToJsonSchema pathParams)
          (JS.keys (z.shape pathParams)) = Return pathEntries
    /\ objects = JS.values (JS.spread (JS.fromEntries queryEntries)
                                      (JS.fromEntries pathEntries)).
Proof.
  unfold getParameterObjects, schemaToPathParameterObjects.
  destruct (zodInstanceofZodType schema); simpl; [|discriminate].
  destruct (zodInstanceof schema _); simpl; [|discriminate].
  destruct (extract schema path) as [[pp rp]|e]; simpl; [|discriminate].
  destruct (mapM (queryParameterEntry _ rp) _) as [qs|e] eqn:Eq;
    simpl; [|discriminate].
  destruct (mapM (pathParameterEntry _ pp) _) as [ps|e] eqn:Ep;
    simpl; [|discriminate].
  intros H; inversion H; subst. exists pp, rp, qs, ps. repeat split; auto.
Qed.

Lemma getMutationInputObjects_Return schema path result :
  mutation schema path = Return result ->
  exists pathParams restParams pathEntries,
    extract schema path = Return (pathParams, restParams)
    /\ mapM (pathParameterEntry zodToJsonSchema pathParams)
          (JS.keys (z.shape pathParams)) = Return pathEntries
    /\ parameters result = JS.values (JS.fromEntries pathEntries).
Proof.
  unfold getMutationInputObjects, schemaToPathParameterObjects.
  destruct (zodInstanceofZodType schema); simpl; [|discriminate].
  destruct (extract schema path) as [[pp rp]|e]; simpl; [|discriminate].
  destruct (mapM (pathParameterEntry _ pp) _) as [ps|e] eqn:Ep;
    simpl; [|discriminate].
  intros H; inversion H; subst. exists pp, rp, ps. repeat split; auto.
Qed.

Lemma query_entries_original schema path pathParams restParams entries :
  extract schema path = Return (pathParams, restParams) ->
  mapM (queryParameterEntry zodToJsonSchema restParams)
    (JS.keys (z.shape restParams)) = Return entries ->
  Forall (flag_of_original schema) entries.
Proof.
  intros E Hm. apply Forall_forall. intros kv Hkv.
  destruct (mapM_In _ _ _ Hm Hkv) as (key & Hkey & Hk).
  apply queryParameterEntry_Return in Hk.
  destruct Hk as (H1 & H2 & _ & H4).
  apply extractPathSchema_Return in E.
  destruct E as (shape & -> & _ & _ & ->).
  unfold flag_of_original. rewrite H1, H2, H4. split; auto.
  rewrite omit_get; auto.
Qed.

Lemma path_entries_original schema path pathParams restParams entries :
  extract schema path = Return (pathParams, restParams) ->
  mapM (pathParameterEntry zodToJsonSchema pathParams)
    (JS.keys (z.shape pathParams)) = Return entries ->
  Forall (flag_of_original schema) entries.
Proof.
  intros E Hm. apply Forall_forall. intros kv Hkv.
  destruct (mapM_In _ _ _ Hm Hkv) as (key & Hkey & Hk).
  apply pathParameterEntry_Return in Hk.
  destruct Hk as (H1 & H2 & _ & H4).
  apply extractPathSchema_Return in E.
  destruct E as (shape & -> & _ & -> & _).
  unfold flag_of_original. rewrite H1, H2, H4. split; auto.
  simpl in *. rewrite pathParams_get; auto.
  apply pathParams_keys in Hkey. exact Hkey.
Qed.

Lemma required_of_original schema path :
  (forall objects object,
      params schema path = Return objects -> In object objects ->
      required object
      = negb (z.isOptional (get (z.shape schema) (name object))))
  /\ (forall result object,
         mutation schema path = Return result ->
         In object (parameters result) ->
         required object
         = negb (z.isOptional (get (z.shape schema) (name object)))).
Proof.
  split.
  - intros objects object H Hin.
    apply getParameterObjects_Return in H.
    destruct H as (pp & rp & qs & ps & E & Hq & Hp & ->).
    apply values_In in Hin. destruct Hin as [k Hin].
    assert (Hall : Forall (flag_of_original schema)
                     (JS.spread (JS.fromEntries qs) (JS.fromEntries ps))).
    { rewrite spread_fold.
      apply (@Forall_fold_set _ (flag_of_original schema)
               (JS.fromEntries ps) (JS.fromEntries (JS.fromEntries qs)));
        repeat apply (@Forall_fromEntries _ (flag_of_original schema)).
      - eapply query_entries_original; eauto.
      - eapply path_entries_original; eauto. }
    rewrite Forall_forall in Hall. destruct (Hall _ Hin) as [H1 H2].
    simpl in *. rewrite H2, H1. reflexivity.
  - intros result object H Hin.
    apply getMutationInputObjects_Return in H.
    destruct H as (pp & rp & ps & E & Hp & Hr). rewrite Hr in Hin.
    apply values_In in Hin. destruct Hin as [k Hin].
    assert (Hall : Forall (flag_of_original schema) (JS.fromEntries ps)).
    { apply (@Forall_fromEntries _ (flag_of_original schema)).
      eapply path_entries_original; eauto. }
    rewrite Forall_forall in Hall. destruct (Hall _ Hin) as [H1 H2].
    simpl in *. rewrite H2, H1. reflexivity.
Qed.

(** C4, as the code has it. The [required] flag of every parameter
    object that [getParameterObjects] or [getMutationInputObjects]
    returns is the negation of [isOptional()] asked of the field as the
    input schema holds it, wrappers included. So an optional string
    field is not required; once a default is put around it, it is not
    required exactly when the checks of the string accept the default
    value, since [isOptional] parses the default with the inner
    schema. *)
Theorem required_is_not_isOptional schema path :
  (forall objects object,
      params schema path = Return objects -> In object objects ->
      required object
      = negb (z.isOptional (get (z.shape schema) (name object))))
  /\ (forall result object,
         mutation schema path = Return result ->
         In object (parameters result) ->
         required object
         = negb (z.isOptional (get (z.shape schema) (name object))))
  /\ (forall objects object checks,
         params schema path = Return objects -> In object objects ->
         get (z.shape schema) (name object) = ZodOptional (ZodString checks) ->
         required object = false)
  /\ (forall objects object checks value,
         params schema path = Return objects -> In object objects ->
         get (z.shape schema) (name object)
         = ZodDefault (ZodOptional (ZodString checks)) (Vstring value) ->
         required object = negb (checks value)).
Proof.
  destruct (required_of_original schema path) as [H1 H2].
  repeat split; auto.
  - intros objects object checks H Hin Hget.
    rewrite (H1 _ _ H Hin), Hget. reflexivity.
  - intros objects object checks value H Hin Hget.
    rewrite (H1 _ _ H Hin), Hget. unfold z.isOptional. simpl.
    destruct (checks value); reflexivity.
Qed.

Lemma query_entries_located restParams entries :
  mapM (queryParameterEntry zodToJsonSchema restParams)
    (JS.keys (z.shape restParams)) = Return entries ->
  Forall (named_and_located Query) entries
  /\ JS.keys entries = JS.keys (z.shape restParams).
Proof.
  intros Hm. split.
  - apply Forall_forall. intros kv Hkv.
    destruct (mapM_In _ _ _ Hm Hkv) as (key & _ & Hk).
    apply queryParameterEntry_Return in Hk.
    destruct Hk as (H1 & H2 & H3 & _). split; congruence.
  - eapply mapM_keys; eauto. intros x y Hy.
    apply queryParameterEntry_Return in Hy. tauto.
Qed.

Lemma path_entries_located pathParams entries :
  mapM (pathParameterEntry zodToJsonSchema pathParams)
    (JS.keys (z.shape pathParams)) = Return entries ->
  Forall (named_and_located Path) entries
  /\ JS.keys entries = JS.keys (z.shape pathParams).
Proof.
  intros Hm. split.
  - apply Forall_forall. intros kv Hkv.
    destruct (mapM_In _ _ _ Hm Hkv) as (key & _ & Hk).
    apply pathParameterEntry_Return in Hk.
    destruct Hk as (H1 & H2 & H3 & _). split; congruence.
  - eapply mapM_keys; eauto. intros x y Hy.
    apply pathParameterEntry_Return in Hy. tauto.
Qed.

(** An object rebuilt from entries that list the keys of a well-formed
    object has these keys, in that order. *)
Lemma keys_fromEntries_wf {B C} (entries : list (string * B)) (o : JS.Obj C) :
  JS.keys entries = JS.keys o -> wf_keys (JS.keys o) ->
  JS.keys (JS.fromEntries entries) = JS.keys o.
Proof.
  intros Hk Hwf. rewrite <- (fromEntries_copy o Hwf).
  unfold JS.fromEntries. apply keys_fold_set_congr; auto.
Qed.

Lemma extractPathSchema_wf schema path pathParams restParams :
  extract schema path = Return (pathParams, restParams) ->
  wf_keys (JS.keys (z.shape pathParams))
  /\ wf_keys (JS.keys (z.shape restParams)).
Proof.
  intros E. apply extractPathSchema_Return in E.
  destruct E as (shape & -> & _ & -> & ->). split.
  - apply wf_keys_fromEntries.
  - apply omit_wf.
Qed.

(** C2, as the code has it. The list [getParameterObjects] returns is
    [Object.values({ ...restParamObjects, ...pathParamObjects })]: its
    names are the own keys of
    [{ ...restParams.shape, ...pathParams.shape }], so the fields of the
    remainder come first and the path fields that are not among them
    follow (array-index names apart, which every object lists first);
    an object has location path exactly when its name is a path
    field. *)
Theorem getParameterObjects_order schema path objects :
  params schema path = Return objects ->
  exists pathParams restParams,
    extract schema path = Return (pathParams, restParams)
    /\ map (@name SchemaObject) objects
       = JS.keys (JS.spread (z.shape restParams) (z.shape pathParams))
    /\ (forall object, In object objects ->
           (in_ object = Path <-> In (name object) (JS.keys (z.shape pathParams)))
           /\ (in_ object = Query
               <-> ~ In (name object) (JS.keys (z.shape pathParams))))
    /\ ((forall key, In key (JS.keys (z.shape pathParams)) ->
                     JS.array_index key = None) ->
        map (@name SchemaObject) objects
        = JS.keys (z.shape restParams)
          ++ filter (fun key => negb (mem key (JS.keys (z.shape restParams))))
               (JS.keys (z.shape pathParams))).
Proof.
  intros H. apply getParameterObjects_Return in H.
  destruct H as (pp & rp & qs & ps & E & Hq & Hp & ->).
  exists pp, rp. split; auto.
  destruct (query_entries_located _ Hq) as [Qall Qkeys].
  destruct (path_entries_located _ Hp) as [Pall Pkeys].
  destruct (extractPathSchema_wf _ _ E) as [Pwf Rwf].
  assert (KQ : JS.keys (JS.fromEntries qs) = JS.keys (z.shape rp))
    by (apply keys_fromEntries_wf; auto).
  assert (KP : JS.keys (JS.fromEntries ps) = JS.keys (z.shape pp))
    by (apply keys_fromEntries_wf; auto).
  assert (Hnames : map (@name SchemaObject)
                     (JS.values (JS.spread (JS.fromEntries qs) (JS.fromEntries ps)))
                   = JS.keys (JS.spread (z.shape rp) (z.shape pp))).
  { rewrite names_keys.
    - unfold JS.spread. apply keys_fold_set_congr; auto.
      unfold JS.keys in *. rewrite !map_app. congruence.
    - rewrite spread_fold.
      apply (@Forall_fold_set _ (fun kv => name (snd kv) = fst kv)
               (JS.fromEntries ps) (JS.fromEntries (JS.fromEntries qs)));
        repeat apply (@Forall_fromEntries _ (fun kv => name (snd kv) = fst kv)).
      + eapply Forall_impl; [|exact Qall]. intros kv [? _]; auto.
      + eapply Forall_impl; [|exact Pall]. intros kv [? _]; auto. }
  split; [exact Hnames|]. split.
  - intros object Hin. apply values_In in Hin. destruct Hin as [k Hin].
    rewrite spread_fold in Hin.
    assert (Hloc : (named_and_located Path (k, object)
                    /\ In k (JS.keys (z.shape pp)))
                   \/ (named_and_located Query (k, object)
                       /\ ~ In k (JS.keys (z.shape pp)))).
    { apply In_fold_set in Hin.
      - destruct Hin as [Hin|[Hin Hnot]].
        + left. split.
          * apply (@Forall_fromEntries _ (named_and_located Path)) in Pall.
            rewrite Forall_forall in Pall. apply (Pall _ Hin).
          * rewrite <- KP. apply (in_map fst) in Hin. exact Hin.
        + right. split.
          * apply (@Forall_fromEntries _ (named_and_located Query)) in Qall.
            apply (@Forall_fromEntries _ (named_and_located Query)) in Qall.
            rewrite Forall_forall in Qall. apply (Qall _ Hin).
          * rewrite <- KP. exact Hnot.
      - apply wf_keys_fromEntries. }
    destruct Hloc as [[[Hn Hl] Hk]|[[Hn Hl] Hk]]; simpl in Hn, Hl;
      rewrite Hn, Hl; split; split; auto; try discriminate; tauto.
  - intros Hplain. rewrite Hnames. unfold JS.spread.
    rewrite fold_left_app.
    change (fold_left (fun o kv => JS.set o (fst kv) (snd kv)) (z.shape rp) [])
      with (JS.fromEntries (z.shape rp)).
    rewrite (fromEntries_copy _ Rwf).
    apply keys_fold_set_plain; auto. apply Pwf.
Qed.

End GeneratorProperties.

(* ------------------------------------------------------------------ *)
(** * The properties on concrete inputs                                *)
(* ------------------------------------------------------------------ *)

Lemma extractPathSchema_fields_witness :
  extractPathSchema zod3_own_keys user_id "/users/{id}"
  = Return (ZodObject [("id", z.string)], ZodObject [("id", z.string)])
  /\ (In "id" (JS.keys (z.shape (ZodObject [("id", z.string)])))
      <-> In "id" (RegExp.matchAll "/users/{id}"))
  /\ (In "id" (JS.keys (z.shape (ZodObject [("id", z.string)])))
      <-> In "id" (JS.keys (z.shape user_id)) /\ ~ In "id" zod3_own_keys
          /\ "id" <> "__proto__").
Proof.
  split; [reflexivity|].
  pose proof (@extractPathSchema_fields zod3_own_keys user_id "/users/{id}"
                (ZodObject [("id", z.string)]) (ZodObject [("id", z.string)])
                eq_refl) as [H1 H2].
  split; [apply (H1 "id") | apply (H2 "id")].
Defined.

Lemma path_before_query_counterexample :
  ~ (forall (schema : ZodType) (path : string) objects,
        getParameterObjects keep_node zod3_own_keys schema path = Return objects ->
        path_then_query (map (@in_ ZodType) objects) = true).
Proof.
  intros H.
  destruct (getParameterObjects keep_node zod3_own_keys user_query "/users/{id}") as [objects|e] eqn:E.
  - specialize (H _ _ _ E). vm_compute in E. injection E as <-.
    vm_compute in H. discriminate H.
  - vm_compute in E. discriminate E.
Qed.

Lemma getParameterObjects_order_witness :
  exists objects,
    getParameterObjects keep_node zod3_own_keys user_query "/users/{id}"
    = Return objects
    /\ map (@name ZodType) objects = ["q"; "id"]
    /\ map (@in_ ZodType) objects = [Query; Path].
Proof.
  destruct (getParameterObjects keep_node zod3_own_keys user_query "/users/{id}") as [objects|e] eqn:E;
    [|vm_compute in E; discriminate E].
  exists objects. split; [reflexivity|].
  destruct (@getParameterObjects_order ZodType keep_node zod3_own_keys
              user_query "/users/{id}" objects E)
    as (pp & rp & Ex & Hnames & Hloc & Hplain).
  vm_compute in Ex. injection Ex as <- <-. split.
  - rewrite Hplain; [reflexivity|].
    intros key [<-|[]]. reflexivity.
  - vm_compute in E. injection E as <-. reflexivity.
Defined.

Lemma non_string_remainder_field_witness :
  getParameterObjects keep_node zod3_own_keys user_count "/users/{id}"
  = Throw StringFieldRequired
  /\ exists result,
       getMutationInputObjects keep_node zod3_own_keys user_count "/users/{id}"
       = Return result
       /\ JS.get_own (body_content (requestBody result)) "application/json"
          = Some {| media_schema :=
                      ZodObject [("id", z.string); ("n", ZodScalar ZodNumber)] |}.
Proof.
  destruct (@non_string_remainder_field ZodType keep_node zod3_own_keys
              user_count "/users/{id}"
              (ZodObject [("id", z.string)])
              (ZodObject [("id", z.string); ("n", ZodScalar ZodNumber)])
              "n" eq_refl)
    as [H1 H2].
  - simpl. auto.
  - reflexivity.
  - split; [exact H1|]. apply H2.
    intros k [<-|[]]. reflexivity.
Defined.

Lemma default_rejected_counterexample :
  ~ (forall (schema : ZodType) (path : string) objects object checks value,
        getParameterObjects keep_node zod3_own_keys schema path = Return objects ->
        In object objects ->
        get (z.shape schema) (name object)
        = ZodDefault (ZodOptional (ZodString checks)) (Vstring value) ->
        required object = false).
Proof.
  intros H.
  destruct (getParameterObjects keep_node zod3_own_keys user_nick "/users")
    as [objects|e] eqn:E; [|vm_compute in E; discriminate E].
  pose proof (H user_nick "/users" objects) as H'.
  vm_compute in E. injection E as <-.
  specialize (H' _ min5 "x" eq_refl (or_introl eq_refl) eq_refl).
  discriminate H'.
Qed.

Lemma required_is_not_isOptional_witness :
  exists objects,
    getParameterObjects keep_node zod3_own_keys user_query "/users/{id}"
    = Return objects
    /\ map (fun object => (name object, required object)) objects
       = [("q", false); ("id", true)]
    /\ (forall object, In object objects -> name object = "q" ->
                       required object = false)
    /\ exists objects',
         getParameterObjects keep_node zod3_own_keys user_nick "/users"
         = Return objects'
         /\ forall object, In object objects' -> required object = negb (min5 "x").
Proof.
  destruct (getParameterObjects keep_node zod3_own_keys user_query "/users/{id}") as [objects|e] eqn:E;
    [|vm_compute in E; discriminate E].
  exists objects. split; [reflexivity|].
  destruct (@required_is_not_isOptional ZodType keep_node zod3_own_keys
              user_query "/users/{id}") as (_ & _ & H & _).
  split; [|split].
  - vm_compute in E. injection E as <-. reflexivity.
  - intros object Hin Hname.
    apply (H objects object (fun _ => true) E Hin).
    rewrite Hname. reflexivity.
  - destruct (getParameterObjects keep_node zod3_own_keys user_nick "/users")
      as [objects'|e] eqn:E'; [|vm_compute in E'; discriminate E'].
    exists objects'. split; [reflexivity|].
    destruct (@required_is_not_isOptional ZodType keep_node zod3_own_keys
                user_nick "/users") as (_ & _ & _ & H4).
    intros object Hin. apply (H4 objects' object min5 "x" E' Hin).
    vm_compute in E'. injection E' as <-.
    destruct Hin as [<-|[]]. reflexivity.
Defined.

Lemma getParameterObjects_ObjectKindRequired_witness :
  typeName (z.optional user_id) = Some ZodFirstPartyTypeKind.ZodOptional
  /\ getParameterObjects keep_node zod3_own_keys (z.optional user_id) "/users/{id}"
     = Throw ObjectKindRequired.
Proof.
  split; [reflexivity|].
  apply (@getParameterObjects_ObjectKindRequired ZodType keep_node zod3_own_keys
           (z.optional user_id) "/users/{id}" ZodFirstPartyTypeKind.ZodOptional).
  - reflexivity.
  - discriminate.
Defined.

Lemma getResponsesObject_entries_witness :
  exists responses,
    getResponsesObject keep_node z.string = Return responses
    /\ JS.keys responses = ["200"; "default"]
    /\ JS.get_own responses "200"
       = Some (Response
                 {| description := "Successful response";
                    content :=
                      [("application/json",
                        {| media_schema :=
                             ZodObject [("ok", ZodLiteral (Vboolean true));
                                        ("data", z.string)] |})] |})
    /\ JS.get_own responses "default"
       = Some (Reference "#/components/responses/error").
Proof.
  apply (@getResponsesObject_entries ZodType keep_node z.string).
  reflexivity.
Defined.

Lemma getMutationInputObjects_body_required_witness :
  exists result,
    getMutationInputObjects keep_node zod3_own_keys user_count "/users/{id}"
    = Return result
    /\ body_required (requestBody result) = true.
Proof.
  destruct (getMutationInputObjects keep_node zod3_own_keys user_count "/users/{id}") as [result|e] eqn:E;
    [|vm_compute in E; discriminate E].
  exists result. split; [reflexivity|].
  destruct (@getMutationInputObjects_body_required ZodType keep_node zod3_own_keys)
    as (H & _).
  apply (H user_count "/users/{id}" result E).
Defined.

(* ------------------------------------------------------------------ *)
(** * The template scanner, further                                    *)
(* ------------------------------------------------------------------ *)

Lemma matchAll_unfold (c : ascii) (s : string) :
  RegExp.matchAll (String c s)
  = match RegExp.exec_at (String c s) with
    | Some (name, rest) => name :: RegExp.matchAll rest
    | None => RegExp.matchAll s
    end.
Proof.
  remember (String c s) as t eqn:Et.
  funelim (RegExp.matchAll t); try discriminate.
  - inversion eqargs; subst. rewrite e. reflexivity.
  - inversion eqargs; subst. rewrite e. reflexivity.
Qed.

Lemma is_word_close_brace : RegExp.is_word "}" = false.
Proof. reflexivity. Qed.

Lemma word_run_spec (s w r : string) :
  RegExp.word_run s = (w, r) ->
  s = (w ++ r)%string /\ all_word w = true.
Proof.
  revert w r. induction s as [|c s IH]; simpl; intros w r H.
  - inversion H; subst. auto.
  - destruct (RegExp.is_word c) eqn:Ec.
    + destruct (RegExp.word_run s) as [w' r'] eqn:E.
      inversion H; subst. destruct (IH _ _ eq_refl) as [-> Hw].
      simpl. rewrite Ec, Hw. auto.
    + inversion H; subst. auto.
Qed.

Lemma word_run_word (w r : string) (c : ascii) :
  all_word w = true -> RegExp.is_word c = false ->
  RegExp.word_run (w ++ String c r) = (w, String c r).
Proof.
  intros Hw Hc. induction w as [|a w IH]; simpl in *.
  - rewrite Hc. reflexivity.
  - apply andb_true_iff in Hw. destruct Hw as [Ha Hw].
    rewrite Ha, (IH Hw). reflexivity.
Qed.

Lemma exec_at_dynamic (name rest : string) :
  name <> "" -> all_word name = true ->
  RegExp.exec_at ("{" ++ name ++ "}" ++ rest) = Some (name, rest).
Proof.
  intros Hne Hw. simpl.
  rewrite word_run_word by (auto using is_word_close_brace).
  destruct name; [congruence | reflexivity].
Qed.

Lemma exec_at_not_brace (c : ascii) (s : string) :
  Ascii.eqb c "{" = false -> RegExp.exec_at (String c s) = None.
Proof.
  destruct c as [[] [] [] [] [] [] [] []]; try reflexivity.
  discriminate.
Qed.

Lemma matchAll_literal (text rest : string) :
  no_open_brace text = true ->
  RegExp.matchAll (text ++ rest) = RegExp.matchAll rest.
Proof.
  induction text as [|c text IH]; simpl; intros H; auto.
  apply andb_true_iff in H. destruct H as [Hc Ht].
  apply negb_true_iff in Hc.
  rewrite matchAll_unfold, exec_at_not_brace by exact Hc. auto.
Qed.

Lemma append_assoc (a b c : string) :
  ((a ++ b) ++ c)%string = (a ++ (b ++ c))%string.
Proof. induction a as [|x a IH]; simpl; congruence. Qed.

Lemma matchAll_sound_aux (path : string) :
  forall name, In name (RegExp.matchAll path) ->
    name <> "" /\ all_word name = true
    /\ exists before after, path = (before ++ "{" ++ name ++ "}" ++ after)%string.
Proof.
  funelim (RegExp.matchAll path); simp matchAll; intros name Hin.
  - destruct Hin.
  - pose proof e as He. apply RegExp.exec_at_inv in He.
    destruct He as (s0 & c0 & w & Hs & Hn & Hrun).
    apply word_run_spec in Hrun. destruct Hrun as [Hs0 Hw].
    destruct Hin as [<-|Hin].
    + split; [rewrite Hn; discriminate|]. split; auto.
      exists EmptyString, rest. rewrite Hs, Hs0. reflexivity.
    + destruct (H _ Hin) as (H1 & H2 & before & after & Hrest).
      split; auto. split; auto.
      exists ("{" ++ name0 ++ "}" ++ before)%string, after.
      rewrite Hs, Hs0, Hrest. simpl. f_equal.
      rewrite !append_assoc. reflexivity.
  - destruct (H _ Hin) as (H1 & H2 & before & after & Hrest).
    split; auto. split; auto.
    exists (String c before), after. rewrite Hrest. reflexivity.
Qed.

Lemma matchAll_dynamic (name rest : string) :
  name <> "" -> all_word name = true ->
  RegExp.matchAll ("{" ++ name ++ "}" ++ rest) = name :: RegExp.matchAll rest.
Proof.
  intros Hne Hw. pose proof (exec_at_dynamic rest Hne Hw) as He.
  change ("{" ++ name ++ "}" ++ rest)%string
    with (String "{" (name ++ "}" ++ rest)%string) in *.
  rewrite matchAll_unfold, He. reflexivity.
Qed.

(** X1. Every name the scanner captures is a non-empty run of word
    characters that stands between braces in the template. *)
Theorem matchAll_captures (path name : string) :
  In name (RegExp.matchAll path) ->
  name <> ""
  /\ all_word name = true
  /\ exists before after,
       path = (before ++ "{" ++ name ++ "}" ++ after)%string.
Proof. apply matchAll_sound_aux. Qed.

Lemma matchAll_captures_witness :
  In "postId" (RegExp.matchAll "/users/{id}/posts/{postId}")
  /\ "postId" <> ""
  /\ all_word "postId" = true
  /\ exists before after,
       "/users/{id}/posts/{postId}"
       = (before ++ "{" ++ "postId" ++ "}" ++ after)%string.
Proof.
  assert (H : In "postId" (RegExp.matchAll "/users/{id}/posts/{postId}"))
    by (right; left; reflexivity).
  split; [exact H|]. exact (matchAll_captures _ _ H).
Defined.

(** X2. A template written as literal texts without an opening brace
    and dynamic segments [{name}] with word-character names is scanned
    back into the names of its dynamic segments, in order and with
    repetitions. *)
Theorem matchAll_render (segments : list Segment) :
  forallb segment_ok segments = true ->
  RegExp.matchAll (render segments) = dynamic_names segments.
Proof.
  induction segments as [|[text|name] segments IH]; simpl; intros H.
  - reflexivity.
  - apply andb_true_iff in H. destruct H as [Ht Hs].
    rewrite matchAll_literal; auto.
  - apply andb_true_iff in H. destruct H as [Hn Hs].
    apply andb_true_iff in Hn. destruct Hn as [Hne Hw].
    apply negb_true_iff, String.eqb_neq in Hne.
    change (RegExp.matchAll ("{" ++ name ++ "}" ++ render segments)%string
            = name :: dynamic_names segments).
    rewrite matchAll_dynamic; auto. f_equal. auto.
Qed.

Lemma matchAll_render_witness :
  render [Literal "/users/"; Dynamic "id"; Literal "/posts/"; Dynamic "id"]
  = "/users/{id}/posts/{id}"
  /\ RegExp.matchAll "/users/{id}/posts/{id}" = ["id"; "id"].
Proof.
  split; [reflexivity|].
  apply (matchAll_render
           [Literal "/users/"; Dynamic "id"; Literal "/posts/"; Dynamic "id"]).
  reflexivity.
Defined.

(* ------------------------------------------------------------------ *)
(** * The partition, further                                           *)
(* ------------------------------------------------------------------ *)

Lemma mapM_first_throw {A B} (f : A -> Result B) (xs : list A) (e : TRPCError) :
  mapM f xs = Throw e ->
  exists before x after,
    xs = before ++ x :: after
    /\ Forall (fun y => exists b, f y = Return b) before
    /\ f x = Throw e.
Proof.
  induction xs as [|x xs IH]; simpl; [discriminate|].
  destruct (f x) as [b|e'] eqn:Ex; simpl.
  - destruct (mapM f xs) as [ys|e'']; simpl; [discriminate|].
    intros H; inversion H; subst.
    destruct (IH eq_refl) as (before & x' & after & -> & Hb & Hx).
    exists (x :: before), x', after. repeat split; auto.
    constructor; eauto.
  - intros H; inversion H; subst. exists [], x, xs. repeat split; auto.
Qed.

Lemma keys_fold_set_distinct {V} (es acc : JS.Obj V) :
  (forall k, In k (JS.keys es) -> JS.array_index k = None) ->
  JS.keys (fold_left (fun o kv => JS.set o (fst kv) (snd kv)) es acc)
  = JS.keys acc ++ distinct_from (JS.keys acc) (JS.keys es).
Proof.
  revert acc. induction es as [|[k v] es IH]; simpl; intros acc Hplain.
  - rewrite app_nil_r; auto.
  - rewrite IH by auto. unfold JS.set.
    destruct (JS.has_own acc k) eqn:E.
    + rewrite keys_update. apply has_own_true in E.
      apply mem_true in E. rewrite E. reflexivity.
    + apply has_own_false in E. rewrite (Hplain k) by auto.
      apply mem_false in E. rewrite E.
      unfold JS.keys. rewrite map_app, <- app_assoc. reflexivity.
Qed.

Lemma sorted_filter {A} (R : A -> A -> Prop) (p : A -> bool) (l : list A) :
  StronglySorted R l -> StronglySorted R (filter p l).
Proof.
  induction 1 as [|a l Hs IH Hall]; simpl; [constructor|].
  destruct (p a); auto. constructor; auto.
  rewrite Forall_forall in *. intros x Hx. apply filter_In in Hx. apply Hall, Hx.
Qed.

Lemma wf_keys_filter (p : string -> bool) (ks : list string) :
  wf_keys ks -> wf_keys (filter p ks).
Proof.
  intros [H1 H2]. split; [apply NoDup_filter | apply sorted_filter]; auto.
Qed.

Section PartitionProperties.

Variable ZodObject_own_keys : list string.

Abbreviation extract' := (extractPathSchema ZodObject_own_keys).

(** X3. [extractPathSchema] returns exactly on a [ZodObject] whose shape
    answers every captured name with a value other than [undefined] and
    [null]. *)
Theorem extractPathSchema_returns_iff (schema : ZodType) (path : string) :
  (exists pathParams restParams,
      extract' schema path = Return (pathParams, restParams))
  <-> exists shape,
        schema = ZodObject shape
        /\ Forall (fun key => is_nullish (get shape key) = false)
                  (RegExp.matchAll path).
Proof.
  split.
  - intros (pp & rp & H). apply extractPathSchema_Return in H.
    destruct H as (shape & -> & Hall & _). eauto.
  - intros (shape & -> & Hall). unfold extractPathSchema. simpl.
    destruct (mapM_total (pathSegmentEntry shape) (RegExp.matchAll path))
      as [entries Hentries].
    + intros key Hin. unfold pathSegmentEntry.
      pose proof (matchAll_nonempty path) as Hne.
      rewrite Forall_forall in Hne, Hall.
      pose proof (Hne _ Hin) as Hk. apply String.eqb_neq in Hk.
      rewrite Hk, (Hall _ Hin). eauto.
    + rewrite Hentries. simpl. eauto.
Qed.

(** X4. When a captured name has no field, the error names the first
    such capture of the template: every capture before it has one. *)
Theorem extractPathSchema_first_unknown (shape : JS.Obj ZodType)
    (path : string) (e : TRPCError) :
  extract' (ZodObject shape) path = Throw e ->
  exists before key after,
    RegExp.matchAll path = before ++ key :: after
    /\ Forall (fun k => is_nullish (get shape k) = false) before
    /\ is_nullish (get shape key) = true
    /\ e = UnknownPathField key.
Proof.
  unfold extractPathSchema. simpl.
  destruct (mapM (pathSegmentEntry shape) (RegExp.matchAll path))
    as [entries|e'] eqn:Em; simpl; [discriminate|].
  intros H; inversion H; subst e'.
  apply mapM_first_throw in Em.
  destruct Em as (before & key & after & Hsplit & Hbefore & Hkey).
  exists before, key, after. split; auto. split.
  - eapply Forall_impl; [|exact Hbefore]. intros k [kv Hk].
    apply pathSegmentEntry_Return in Hk. tauto.
  - apply pathSegmentEntry_Throw in Hkey. destruct Hkey as [[-> _]|[? ?]]; auto.
    pose proof (matchAll_nonempty path) as Hne. rewrite Hsplit in Hne.
    apply Forall_app in Hne. destruct Hne as [_ Hne].
    inversion Hne; subst. congruence.
Qed.

(** X5. A partition hands the field nodes on as they are: a field of
    [pathParams] or of [restParams] is bound to the node the input
    schema holds under that name, and [restParams] lists its fields in
    the order of the input schema. *)
Theorem extractPathSchema_keeps_nodes (schema : ZodType) (path : string)
    (pathParams restParams : ZodType) :
  extract' schema path = Return (pathParams, restParams) ->
  (forall key, In key (JS.keys (z.shape pathParams)) ->
               get (z.shape pathParams) key = get (z.shape schema) key)
  /\ (forall key, In key (JS.keys (z.shape restParams)) ->
                  get (z.shape restParams) key = get (z.shape schema) key)
  /\ (wf_keys (JS.keys (z.shape schema)) ->
      JS.keys (z.shape restParams)
      = filter (fun key => mem key (JS.keys (z.shape restParams)))
          (JS.keys (z.shape schema))).
Proof.
  intros H. apply extractPathSchema_Return in H.
  destruct H as (shape & -> & _ & -> & ->). split; [|split].
  - intros key Hin. simpl in *. apply pathParams_get.
    apply pathParams_keys in Hin. exact Hin.
  - intros key Hin. apply omit_get. exact Hin.
  - intros Hwf. simpl z.shape at 3.
    set (mask := JS.fromEntries (map (fun k => (k, true)) ZodObject_own_keys)).
    assert (Hk : JS.keys (z.shape (z.omit (ZodObject shape) mask))
                 = filter (kept (JS.keys mask)) (JS.keys shape)).
    { rewrite omit_shape.
      set (ks := filter (kept (JS.keys mask)) (JS.keys shape)).
      assert (Hks : JS.keys (map (fun key => (key, get shape key)) ks) = ks).
      { unfold JS.keys. rewrite map_map. simpl. apply map_id. }
      rewrite fromEntries_copy; auto. rewrite Hks. apply wf_keys_filter, Hwf. }
    rewrite Hk. apply filter_ext_in. intros key Hin.
    destruct (kept (JS.keys mask) key) eqn:Em; symmetry.
    + apply mem_true. rewrite filter_In, Em. auto.
    + apply mem_false. rewrite filter_In, Em. intros [_ ?]. discriminate.
Qed.

(** X6. [pathParams] has one field per distinct captured name: its
    field names are the captured names, each once; when no captured name
    is an array index, the fields come in the order in which the
    template first names them. *)
Theorem pathParams_fields (schema : ZodType) (path : string)
    (pathParams restParams : ZodType) :
  extract' schema path = Return (pathParams, restParams) ->
  NoDup (JS.keys (z.shape pathParams))
  /\ (forall key, In key (JS.keys (z.shape pathParams))
                  <-> In key (RegExp.matchAll path))
  /\ ((forall key, In key (RegExp.matchAll path) -> JS.array_index key = None) ->
      JS.keys (z.shape pathParams) = distinct_from [] (RegExp.matchAll path)).
Proof.
  intros H. apply extractPathSchema_Return in H.
  destruct H as (shape & -> & _ & -> & _). simpl. split; [|split].
  - apply wf_keys_fromEntries.
  - intros key. apply pathParams_keys.
  - intros Hplain. unfold JS.fromEntries.
    assert (Hks : JS.keys (map (fun key => (key, get shape key))
                             (RegExp.matchAll path)) = RegExp.matchAll path).
    { unfold JS.keys. rewrite map_map. simpl. apply map_id. }
    rewrite keys_fold_set_distinct; rewrite Hks; auto.
Qed.

End PartitionProperties.

(* ------------------------------------------------------------------ *)
(** * The unwrapper and the builders, further                          *)
(* ------------------------------------------------------------------ *)

Lemma getBaseZodType_not_wrapper (schema : ZodType) :
  is_wrapper (getBaseZodType schema) = false.
Proof.
  induction schema as [| | | | | | | |k|]; simpl; auto. destruct k; reflexivity.
Qed.

(** X7. Unwrapping is idempotent, and the nodes it leaves as they are
    are exactly those that are none of the three wrappers. *)
Theorem getBaseZodType_idempotent (schema : ZodType) :
  getBaseZodType (getBaseZodType schema) = getBaseZodType schema
  /\ (getBaseZodType schema = schema <-> is_wrapper schema = false).
Proof.
  split.
  - induction schema; simpl; auto.
  - split.
    + intros H. rewrite <- H. apply getBaseZodType_not_wrapper.
    + destruct schema as [| | | | | | | |[]|]; simpl; auto; discriminate.
Qed.

Section SetFacts.
Context {V : Type}.
Implicit Types (o : JS.Obj V) (k : string) (v : V).

Lemma update_In_new o k v : In k (JS.keys o) -> In (k, v) (JS.update o k v).
Proof.
  induction o as [|[k0 v0] o IH]; simpl; [tauto|].
  destruct (String.eqb k0 k) eqn:E.
  - apply String.eqb_eq in E; subst. intros _. left; reflexivity.
  - apply String.eqb_neq in E. intros [H|H]; [contradiction|]. right; auto.
Qed.

Lemma update_In_other o k v k' v' :
  In (k, v) o -> k <> k' -> In (k, v) (JS.update o k' v').
Proof.
  induction o as [|[k0 v0] o IH]; simpl; [tauto|]. intros H Hne.
  destruct (String.eqb k0 k') eqn:E.
  - apply String.eqb_eq in E; subst. destruct H as [H|H]; [|right; auto].
    inversion H; subst. contradiction.
  - destruct H as [H|H]; [left; auto | right; auto].
Qed.

Lemma set_In_new o k v : In (k, v) (JS.set o k v).
Proof.
  unfold JS.set. destruct (JS.has_own o k) eqn:E.
  - apply update_In_new, has_own_true, E.
  - destruct (JS.array_index k).
    + apply In_insert_index. auto.
    + apply in_or_app. right. left. reflexivity.
Qed.

Lemma set_In_other o k v k' v' :
  In (k, v) o -> k <> k' -> In (k, v) (JS.set o k' v').
Proof.
  intros H Hne. unfold JS.set. destruct (JS.has_own o k').
  - apply update_In_other; auto.
  - destruct (JS.array_index k').
    + apply In_insert_index. auto.
    + apply in_or_app. auto.
Qed.

Lemma fold_set_In_kept es o k v :
  In (k, v) o -> ~ In k (JS.keys es) ->
  In (k, v) (fold_left (fun o kv => JS.set o (fst kv) (snd kv)) es o).
Proof.
  revert o. induction es as [|[k0 v0] es IH]; simpl; intros o H Hk; auto.
  apply IH; [|tauto]. apply set_In_other; auto.
Qed.

(** With distinct keys every assignment of a run is still there at its
    end. *)
Lemma fold_set_In_assigned es o k v :
  NoDup (JS.keys es) -> In (k, v) es ->
  In (k, v) (fold_left (fun o kv => JS.set o (fst kv) (snd kv)) es o).
Proof.
  revert o. induction es as [|[k0 v0] es IH]; simpl; intros o Hnd H; [tauto|].
  inversion Hnd; subst. destruct H as [H|H].
  - inversion H; subst. apply fold_set_In_kept; auto. apply set_In_new.
  - apply IH; auto.
Qed.

End SetFacts.

Lemma mapM_Return_all {A B} (f : A -> Result B) (xs : list A) (ys : list B) :
  mapM f xs = Return ys -> forall x, In x xs -> exists y, f x = Return y.
Proof.
  intros H. apply mapM_Return in H.
  induction H as [|x y xs ys Hxy _ IH]; simpl; [tauto|].
  intros x' [<-|Hin]; eauto.
Qed.

Lemma append_empty (s : string) : (s ++ "")%string = s.
Proof. induction s; simpl; congruence. Qed.

Lemma matchAll_no_open_brace (path : string) :
  no_open_brace path = true -> RegExp.matchAll path = [].
Proof.
  intros H. rewrite <- (append_empty path).
  rewrite matchAll_literal; auto.
Qed.

Section BuilderProperties.

Variable SchemaObject : Type.
Variable zodToJsonSchema : ZodType -> Options -> SchemaObject.
Variable ZodObject_own_keys : list string.

Abbreviation partition' := (extractPathSchema ZodObject_own_keys).
Abbreviation params' := (getParameterObjects zodToJsonSchema ZodObject_own_keys).
Abbreviation mutation' :=
  (getMutationInputObjects zodToJsonSchema ZodObject_own_keys).
Abbreviation queryEntry := (queryParameterEntry zodToJsonSchema).
Abbreviation pathEntry := (pathParameterEntry zodToJsonSchema).

Lemma queryEntry_returns restParams key :
  (exists kv, queryEntry restParams key = Return kv)
  <-> string_based (get (z.shape restParams) key) = true.
Proof.
  unfold queryParameterEntry, string_based.
  destruct (zodInstanceof _ _); simpl; split; eauto; try discriminate.
  intros [kv H]; discriminate.
Qed.

Lemma pathEntry_returns pathParams key :
  (exists kv, pathEntry pathParams key = Return kv)
  <-> string_based (get (z.shape pathParams) key) = true.
Proof.
  unfold pathParameterEntry, string_based.
  destruct (zodInstanceof _ _); simpl; split; eauto; try discriminate.
  intros [kv H]; discriminate.
Qed.

Lemma queryEntry_fields restParams key kv :
  queryEntry restParams key = Return kv ->
  fst kv = key /\ entry_fields zodToJsonSchema restParams kv.
Proof.
  unfold queryParameterEntry, entry_fields.
  destruct (zodInstanceof _ _); simpl; intros H; inversion H; subst; simpl.
  repeat split.
Qed.

Lemma pathEntry_fields pathParams key kv :
  pathEntry pathParams key = Return kv ->
  fst kv = key /\ entry_fields zodToJsonSchema pathParams kv.
Proof.
  unfold pathParameterEntry, entry_fields.
  destruct (zodInstanceof _ _); simpl; intros H; inversion H; subst; simpl.
  repeat split.
Qed.

(** X8. [getParameterObjects] returns exactly when the partition
    returns and every field of the remainder and of the path subset
    unwraps to a [ZodString]. *)
Theorem getParameterObjects_returns_iff (schema : ZodType) (path : string) :
  (exists objects, params' schema path = Return objects)
  <-> exists pathParams restParams,
        partition' schema path = Return (pathParams, restParams)
        /\ (forall key, In key (JS.keys (z.shape restParams)) ->
                        string_based (get (z.shape restParams) key) = true)
        /\ (forall key, In key (JS.keys (z.shape pathParams)) ->
                        string_based (get (z.shape pathParams) key) = true).
Proof.
  split.
  - intros [objects H]. apply getParameterObjects_Return in H.
    destruct H as (pp & rp & qs & ps & E & Hq & Hp & _).
    exists pp, rp. split; auto. split; intros key Hin.
    + apply queryEntry_returns. eapply mapM_Return_all; eauto.
    + apply pathEntry_returns. eapply mapM_Return_all; eauto.
  - intros (pp & rp & E & Hq & Hp).
    pose proof E as E'. apply extractPathSchema_Return in E'.
    destruct E' as (shape & -> & _).
    destruct (mapM_total (queryEntry rp) (JS.keys (z.shape rp))) as [qs Hqs].
    { intros key Hin. apply queryEntry_returns; auto. }
    destruct (mapM_total (pathEntry pp) (JS.keys (z.shape pp))) as [ps Hps].
    { intros key Hin. apply pathEntry_returns; auto. }
    unfold getParameterObjects, schemaToPathParameterObjects. simpl.
    rewrite E. simpl. rewrite Hqs. simpl. rewrite Hps. simpl. eauto.
Qed.

(** X9. [getMutationInputObjects] returns exactly when the partition
    returns and every field of the path subset unwraps to a
    [ZodString]; the remainder is not looked into. *)
Theorem getMutationInputObjects_returns_iff (schema : ZodType) (path : string) :
  (exists result, mutation' schema path = Return result)
  <-> exists pathParams restParams,
        partition' schema path = Return (pathParams, restParams)
        /\ (forall key, In key (JS.keys (z.shape pathParams)) ->
                        string_based (get (z.shape pathParams) key) = true).
Proof.
  split.
  - intros [result H]. apply getMutationInputObjects_Return in H.
    destruct H as (pp & rp & ps & E & Hp & _).
    exists pp, rp. split; auto. intros key Hin.
    apply pathEntry_returns. eapply mapM_Return_all; eauto.
  - intros (pp & rp & E & Hp).
    pose proof E as E'. apply extractPathSchema_Return in E'.
    destruct E' as (shape & -> & _).
    destruct (mapM_total (pathEntry pp) (JS.keys (z.shape pp))) as [ps Hps].
    { intros key Hin. apply pathEntry_returns; auto. }
    unfold getMutationInputObjects, schemaToPathParameterObjects. simpl.
    rewrite E. simpl. rewrite Hps. simpl. eauto.
Qed.

(** X10. The throws of the two builders. A builder throws nothing but:
    the ZodType error, on a value without type name; the ZodObject
    error, on a schema of another kind; the error of a captured name
    that has no field; the ZodString error, once the partition has
    returned, for a field that does not unwrap to a string, of the
    remainder or the path subset in [getParameterObjects], of the path
    subset alone in [getMutationInputObjects]. *)
Theorem builders_throw (schema : ZodType) (path : string) (e : TRPCError) :
  (params' schema path = Throw e ->
   (zodInstanceofZodType schema = false /\ e = NotASchema)
   \/ (zodInstanceofZodType schema = true
       /\ zodInstanceof schema ZodFirstPartyTypeKind.ZodObject = false
       /\ e = ObjectKindRequired)
   \/ (exists key, In key (RegExp.matchAll path)
                   /\ is_nullish (get (z.shape schema) key) = true
                   /\ e = UnknownPathField key)
   \/ (exists pathParams restParams key,
          partition' schema path = Return (pathParams, restParams)
          /\ e = StringFieldRequired
          /\ ((In key (JS.keys (z.shape restParams))
               /\ string_based (get (z.shape restParams) key) = false)
              \/ (In key (JS.keys (z.shape pathParams))
                  /\ string_based (get (z.shape pathParams) key) = false))))
  /\ (mutation' schema path = Throw e ->
      (zodInstanceofZodType schema = false /\ e = NotASchema)
      \/ (zodInstanceofZodType schema = true
          /\ zodInstanceof schema ZodFirstPartyTypeKind.ZodObject = false
          /\ e = ObjectKindRequired)
      \/ (exists key, In key (RegExp.matchAll path)
                      /\ is_nullish (get (z.shape schema) key) = true
                      /\ e = UnknownPathField key)
      \/ (exists pathParams restParams key,
             partition' schema path = Return (pathParams, restParams)
             /\ e = StringFieldRequired
             /\ In key (JS.keys (z.shape pathParams))
             /\ string_based (get (z.shape pathParams) key) = false)).
Proof.
  assert (Hq : forall rp key e', In key (JS.keys (z.shape rp)) ->
                 queryEntry rp key = Throw e' ->
                 e' = StringFieldRequired
                 /\ string_based (get (z.shape rp) key) = false).
  { intros rp key e' _ H. split; [eapply queryParameterEntry_Throw; eauto|].
    destruct (string_based (get (z.shape rp) key)) eqn:E; auto.
    apply queryEntry_returns in E. destruct E as [kv E]. congruence. }
  assert (Hp : forall pp key e', In key (JS.keys (z.shape pp)) ->
                 pathEntry pp key = Throw e' ->
                 e' = StringFieldRequired
                 /\ string_based (get (z.shape pp) key) = false).
  { intros pp key e' _ H. split; [eapply pathParameterEntry_Throw; eauto|].
    destruct (string_based (get (z.shape pp) key)) eqn:E; auto.
    apply pathEntry_returns in E. destruct E as [kv E]. congruence. }
  split.
  - unfold getParameterObjects, schemaToPathParameterObjects.
    destruct (zodInstanceofZodType schema) eqn:Ez; simpl;
      [|intros H; inversion H; auto].
    destruct (zodInstanceof schema ZodFirstPartyTypeKind.ZodObject) eqn:Eo;
      simpl; [|intros H; inversion H; auto].
    destruct (partition' schema path) as [[pp rp]|e0] eqn:E; simpl.
    + destruct (mapM (queryEntry rp) (JS.keys (z.shape rp))) as [qs|e1] eqn:Eq;
        simpl.
      * destruct (mapM (pathEntry pp) (JS.keys (z.shape pp))) as [ps|e2] eqn:Ep;
          simpl; [discriminate|].
        intros H; inversion H; subst e2.
        apply mapM_Throw in Ep. destruct Ep as (key & Hin & Hk).
        destruct (Hp _ _ _ Hin Hk) as [-> Hs].
        right. right. right. exists pp, rp, key. auto.
      * intros H; inversion H; subst e1.
        apply mapM_Throw in Eq. destruct Eq as (key & Hin & Hk).
        destruct (Hq _ _ _ Hin Hk) as [-> Hs].
        right. right. right. exists pp, rp, key. auto.
    + intros H; inversion H; subst e0.
      apply extractPathSchema_Throw in E.
      destruct E as [[E1 _]|[(_ & E2 & _)|E3]]; try congruence. auto.
  - unfold getMutationInputObjects, schemaToPathParameterObjects.
    destruct (zodInstanceofZodType schema) eqn:Ez; simpl;
      [|intros H; inversion H; auto].
    destruct (partition' schema path) as [[pp rp]|e0] eqn:E; simpl.
    + destruct (mapM (pathEntry pp) (JS.keys (z.shape pp))) as [ps|e2] eqn:Ep;
        simpl; [discriminate|].
      intros H; inversion H; subst e2.
      apply mapM_Throw in Ep. destruct Ep as (key & Hin & Hk).
      destruct (Hp _ _ _ Hin Hk) as [-> Hs].
      right. right. right. exists pp, rp, key. auto.
    + intros H; inversion H; subst e0.
      apply extractPathSchema_Throw in E.
      destruct E as [[E1 _]|[(_ & E2 & E3)|E3]]; try congruence; auto.
Qed.

Lemma query_entries_fields schema path pathParams restParams entries :
  partition' schema path = Return (pathParams, restParams) ->
  mapM (queryEntry restParams) (JS.keys (z.shape restParams)) = Return entries ->
  Forall (entry_fields zodToJsonSchema schema) entries.
Proof.
  intros E Hm. apply Forall_forall. intros kv Hkv.
  destruct (mapM_In _ _ _ Hm Hkv) as (key & Hkey & Hk).
  apply queryEntry_fields in Hk. destruct Hk as (H1 & H2 & H3 & H4 & H5).
  apply extractPathSchema_Return in E.
  destruct E as (shape & -> & _ & _ & ->).
  unfold entry_fields. rewrite H3, H4, H5. repeat split; auto.
  rewrite omit_get by (rewrite H1; exact Hkey). reflexivity.
Qed.

Lemma path_entries_fields schema path pathParams restParams entries :
  partition' schema path = Return (pathParams, restParams) ->
  mapM (pathEntry pathParams) (JS.keys (z.shape pathParams)) = Return entries ->
  Forall (entry_fields zodToJsonSchema schema) entries.
Proof.
  intros E Hm. apply Forall_forall. intros kv Hkv.
  destruct (mapM_In _ _ _ Hm Hkv) as (key & Hkey & Hk).
  apply pathEntry_fields in Hk. destruct Hk as (H1 & H2 & H3 & H4 & H5).
  apply extractPathSchema_Return in E.
  destruct E as (shape & -> & _ & -> & _).
  unfold entry_fields. rewrite H3, H4, H5. repeat split; auto.
  simpl in *. apply pathParams_keys in Hkey.
  rewrite pathParams_get by (rewrite H1; exact Hkey). reflexivity.
Qed.

(** X11. Every parameter object that a builder returns carries, as its
    schema document, the conversion for openApi3 of the node the input
    schema holds under the object's name, wrappers included; it has
    [explode] set, and style simple in the path, form in the query. *)
Theorem parameter_object_fields (input : ZodType) (path : string) :
  (forall objects object,
      params' input path = Return objects -> In object objects ->
      schema object
      = zodToJsonSchema (get (z.shape input) (name object))
          {| target := "openApi3" |}
      /\ explode object = true
      /\ style object = match in_ object with Path => Simple | Query => Form end)
  /\ (forall result object,
         mutation' input path = Return result ->
         In object (parameters result) ->
         schema object
         = zodToJsonSchema (get (z.shape input) (name object))
             {| target := "openApi3" |}
         /\ explode object = true
         /\ style object = match in_ object with Path => Simple | Query => Form end).
Proof.
  split.
  - intros objects object H Hin.
    apply getParameterObjects_Return in H.
    destruct H as (pp & rp & qs & ps & E & Hq & Hp & ->).
    apply values_In in Hin. destruct Hin as [k Hin].
    assert (Hall : Forall (entry_fields zodToJsonSchema input)
                     (JS.spread (JS.fromEntries qs) (JS.fromEntries ps))).
    { rewrite spread_fold.
      apply (@Forall_fold_set _ (entry_fields zodToJsonSchema input)
               (JS.fromEntries ps) (JS.fromEntries (JS.fromEntries qs)));
        repeat apply (@Forall_fromEntries _ (entry_fields zodToJsonSchema input)).
      - eapply query_entries_fields; eauto.
      - eapply path_entries_fields; eauto. }
    rewrite Forall_forall in Hall. destruct (Hall _ Hin) as (H1 & H2 & H3 & H4).
    simpl in *. rewrite H1. auto.
  - intros result object H Hin.
    apply getMutationInputObjects_Return in H.
    destruct H as (pp & rp & ps & E & Hp & Hr). rewrite Hr in Hin.
    apply values_In in Hin. destruct Hin as [k Hin].
    assert (Hall : Forall (entry_fields zodToJsonSchema input) (JS.fromEntries ps)).
    { apply (@Forall_fromEntries _ (entry_fields zodToJsonSchema input)).
      eapply path_entries_fields; eauto. }
    rewrite Forall_forall in Hall. destruct (Hall _ Hin) as (H1 & H2 & H3 & H4).
    simpl in *. rewrite H1. auto.
Qed.

Lemma named_values (o : JS.Obj (ParameterObject SchemaObject)) l :
  Forall (named_and_located l) o ->
  map (@name SchemaObject) (JS.values o) = JS.keys o.
Proof.
  intros H. apply names_keys. eapply Forall_impl; [|exact H].
  intros kv [? _]; auto.
Qed.

(** X12. No two parameter objects that [getParameterObjects] returns
    bear the same name, and the names are those of the fields of the
    remainder and of the path subset. *)
Theorem getParameterObjects_names (input : ZodType) (path : string)
    (objects : list (ParameterObject SchemaObject)) :
  params' input path = Return objects ->
  NoDup (map (@name SchemaObject) objects)
  /\ exists pathParams restParams,
       partition' input path = Return (pathParams, restParams)
       /\ forall key, In key (map (@name SchemaObject) objects)
                      <-> In key (JS.keys (z.shape restParams))
                          \/ In key (JS.keys (z.shape pathParams)).
Proof.
  intros H. apply getParameterObjects_Return in H.
  destruct H as (pp & rp & qs & ps & E & Hq & Hp & ->).
  destruct (query_entries_located _ _ Hq) as [Qall Qkeys].
  destruct (path_entries_located _ _ Hp) as [Pall Pkeys].
  assert (Hnames : map (@name SchemaObject)
                     (JS.values (JS.spread (JS.fromEntries qs) (JS.fromEntries ps)))
                   = JS.keys (JS.spread (JS.fromEntries qs) (JS.fromEntries ps))).
  { apply names_keys. rewrite spread_fold.
    apply (@Forall_fold_set _ (fun kv => name (snd kv) = fst kv)
             (JS.fromEntries ps) (JS.fromEntries (JS.fromEntries qs)));
      repeat apply (@Forall_fromEntries _ (fun kv => name (snd kv) = fst kv)).
    - eapply Forall_impl; [|exact Qall]. intros kv [? _]; auto.
    - eapply Forall_impl; [|exact Pall]. intros kv [? _]; auto. }
  rewrite Hnames. split.
  - unfold JS.spread. apply NoDup_fold_set. constructor.
  - exists pp, rp. split; auto. intros key.
    unfold JS.spread. rewrite keys_fold_set_In. simpl.
    unfold JS.keys at 1. rewrite map_app, in_app_iff.
    fold (JS.keys (JS.fromEntries qs)). fold (JS.keys (JS.fromEntries ps)).
    unfold JS.fromEntries. rewrite !keys_fold_set_In. simpl.
    rewrite Qkeys, Pkeys. tauto.
Qed.

(** X13. What [getMutationInputObjects] returns: path-location
    parameter objects, one per distinct captured name, and a request
    body with the single media type application/json whose schema is the
    conversion of the whole remainder object. *)
Theorem getMutationInputObjects_result (input : ZodType) (path : string)
    (result : MutationInputObjects SchemaObject) :
  mutation' input path = Return result ->
  Forall (fun object => in_ object = Path) (parameters result)
  /\ NoDup (map (@name SchemaObject) (parameters result))
  /\ (forall key, In key (map (@name SchemaObject) (parameters result))
                  <-> In key (RegExp.matchAll path))
  /\ exists pathParams restParams,
       partition' input path = Return (pathParams, restParams)
       /\ body_content (requestBody result)
          = [("application/json",
              {| media_schema :=
                   zodToJsonSchema restParams {| target := "openApi3" |} |})].
Proof.
  intros H. pose proof H as H'. apply getMutationInputObjects_Return in H'.
  destruct H' as (pp & rp & ps & E & Hp & Hr).
  destruct (path_entries_located _ _ Hp) as [Pall Pkeys].
  pose proof (@Forall_fromEntries _ (named_and_located Path) _ Pall) as Pall'.
  rewrite Hr. split; [|split; [|split]].
  - apply Forall_forall. intros object Hin. apply values_In in Hin.
    destruct Hin as [k Hin]. rewrite Forall_forall in Pall'.
    apply (Pall' _ Hin).
  - rewrite (named_values Pall'). apply wf_keys_fromEntries.
  - intros key. rewrite (named_values Pall').
    unfold JS.fromEntries. rewrite keys_fold_set_In. simpl. rewrite Pkeys.
    pose proof E as E'. apply extractPathSchema_Return in E'.
    destruct E' as (shape & _ & _ & -> & _). simpl.
    rewrite pathParams_keys. tauto.
  - exists pp, rp. split; auto.
    unfold getMutationInputObjects in H.
    destruct (zodInstanceofZodType input); simpl in H; [|discriminate].
    rewrite E in H. simpl in H.
    destruct (schemaToPathParameterObjects zodToJsonSchema pp); simpl in H;
      [|discriminate].
    inversion H; subst. reflexivity.
Qed.

(** X14. The two builders agree on the path: when
    [getParameterObjects] returns for a schema and a template, so does
    [getMutationInputObjects], and its parameters are the path-location
    objects of the list of [getParameterObjects]. *)
Theorem builders_agree_on_path (input : ZodType) (path : string)
    (objects : list (ParameterObject SchemaObject)) :
  params' input path = Return objects ->
  exists result,
    mutation' input path = Return result
    /\ forall object, In object (parameters result)
                      <-> In object objects /\ in_ object = Path.
Proof.
  intros H. apply getParameterObjects_Return in H.
  destruct H as (pp & rp & qs & ps & E & Hq & Hp & ->).
  pose proof E as E'. apply extractPathSchema_Return in E'.
  destruct E' as (shape & Hs & _). subst input.
  destruct (query_entries_located _ _ Hq) as [Qall _].
  destruct (path_entries_located _ _ Hp) as [Pall _].
  pose proof (@Forall_fromEntries _ (named_and_located Path) _ Pall) as Pall'.
  pose proof (@Forall_fromEntries _ (named_and_located Query) _ Qall) as Qall'.
  apply (@Forall_fromEntries _ (named_and_located Query)) in Qall'.
  rewrite Forall_forall in Pall', Qall'.
  unfold getMutationInputObjects, schemaToPathParameterObjects. simpl.
  rewrite E. simpl. rewrite Hp. simpl. eexists. split; [reflexivity|].
  simpl. intros object. unfold JS.values at 1 2. rewrite !in_map_iff. split.
  - intros ([k v] & Hv & Hin). simpl in Hv. subst v. split.
    + exists (k, object). split; auto. rewrite spread_fold.
      apply fold_set_In_assigned; auto. apply wf_keys_fromEntries.
    + apply (Pall' _ Hin).
  - intros (([k v] & Hv & Hin) & Hloc). simpl in Hv. subst v.
    exists (k, object). split; auto.
    rewrite spread_fold in Hin. apply In_fold_set in Hin.
    + destruct Hin as [Hin|[Hin _]]; auto.
      destruct (Qall' _ Hin) as [_ Hquery]. simpl in Hquery. congruence.
    + apply wf_keys_fromEntries.
Qed.

(** X15. A nullable field is no parameter: [getBaseZodType] does not
    unwrap [ZodNullable], so such a field in the remainder makes
    [getParameterObjects] throw the ZodString error, and in the path
    subset it makes both builders throw it. *)
Theorem nullable_field_refused (input : ZodType) (path : string)
    (pathParams restParams : ZodType) (key : string) (innerType : ZodType) :
  partition' input path = Return (pathParams, restParams) ->
  (In key (JS.keys (z.shape restParams)) ->
   get (z.shape restParams) key = ZodNullable innerType ->
   params' input path = Throw StringFieldRequired)
  /\ (In key (JS.keys (z.shape pathParams)) ->
      get (z.shape pathParams) key = ZodNullable innerType ->
      params' input path = Throw StringFieldRequired
      /\ mutation' input path = Throw StringFieldRequired).
Proof.
  intros E.
  pose proof E as E'. apply extractPathSchema_Return in E'.
  destruct E' as (shape & Hs & _). subst input.
  assert (Hpath : In key (JS.keys (z.shape pathParams)) ->
                  get (z.shape pathParams) key = ZodNullable innerType ->
                  mapM (pathEntry pathParams) (JS.keys (z.shape pathParams))
                  = Throw StringFieldRequired).
  { intros Hin Hget. apply mapM_throws.
    - intros x e _. apply pathParameterEntry_Throw.
    - exists key. split; auto. unfold pathParameterEntry. rewrite Hget.
      reflexivity. }
  split.
  - intros Hin Hget. unfold getParameterObjects. simpl. rewrite E. simpl.
    rewrite (mapM_throws (queryEntry restParams)
               (JS.keys (z.shape restParams)) (e0 := StringFieldRequired)).
    + reflexivity.
    + intros x e _. apply queryParameterEntry_Throw.
    + exists key. split; auto. unfold queryParameterEntry. rewrite Hget.
      reflexivity.
  - intros Hin Hget. split.
    + unfold getParameterObjects, schemaToPathParameterObjects. simpl.
      rewrite E. simpl.
      destruct (mapM (queryEntry restParams) (JS.keys (z.shape restParams)))
        as [qs|e] eqn:Eq; simpl.
      * rewrite (Hpath Hin Hget). reflexivity.
      * apply mapM_Throw in Eq. destruct Eq as (x & _ & Hx).
        apply queryParameterEntry_Throw in Hx. congruence.
    + unfold getMutationInputObjects, schemaToPathParameterObjects. simpl.
      rewrite E. simpl. rewrite (Hpath Hin Hget). reflexivity.
Qed.

(** X16. A template without an opening brace has no dynamic segment:
    the partition of an object schema returns with an empty path subset,
    and [getMutationInputObjects] returns no parameter. *)
Theorem template_without_segments (shape : JS.Obj ZodType) (path : string) :
  no_open_brace path = true ->
  (exists restParams,
      partition' (ZodObject shape) path = Return (ZodObject [], restParams))
  /\ exists result,
       mutation' (ZodObject shape) path = Return result
       /\ parameters result = [].
Proof.
  intros H. apply matchAll_no_open_brace in H.
  unfold getMutationInputObjects, extractPathSchema. simpl. rewrite H. simpl.
  split; eexists; [reflexivity | split; reflexivity].
Qed.

(** X17. A captured name that is neither a field of the schema nor a
    member of [Object.prototype] aborts the partition and both builders
    with the error that names it, whatever the kinds of the fields. *)
Theorem unknown_segment_aborts (shape : JS.Obj ZodType) (path name : string) :
  In name (RegExp.matchAll path) ->
  ~ In name (JS.keys shape) ->
  JS.inherited name = false ->
  exists key,
    partition' (ZodObject shape) path = Throw (UnknownPathField key)
    /\ params' (ZodObject shape) path = Throw (UnknownPathField key)
    /\ mutation' (ZodObject shape) path = Throw (UnknownPathField key).
Proof. apply UnknownPathField_thrown. Qed.

End BuilderProperties.

(* ------------------------------------------------------------------ *)
(** * The further properties on concrete inputs                        *)
(* ------------------------------------------------------------------ *)

Lemma extractPathSchema_first_unknown_witness :
  extractPathSchema zod3_own_keys user_id "/users/{id}/posts/{postId}"
  = Throw (UnknownPathField "postId")
  /\ exists before key after,
       RegExp.matchAll "/users/{id}/posts/{postId}" = before ++ key :: after
       /\ Forall (fun k => is_nullish (get (z.shape user_id) k) = false) before
       /\ is_nullish (get (z.shape user_id) key) = true
       /\ UnknownPathField "postId" = UnknownPathField key.
Proof.
  split; [reflexivity|].
  apply (@extractPathSchema_first_unknown zod3_own_keys (z.shape user_id)
           "/users/{id}/posts/{postId}" (UnknownPathField "postId")).
  reflexivity.
Defined.

Lemma extractPathSchema_keeps_nodes_witness :
  get (z.shape (ZodObject [("id", z.string)])) "id" = get (z.shape user_query) "id"
  /\ JS.keys (z.shape (ZodObject [("q", z.optional z.string); ("id", z.string)]))
     = ["q"; "id"].
Proof.
  destruct (@extractPathSchema_keeps_nodes zod3_own_keys user_query "/users/{id}"
              (ZodObject [("id", z.string)])
              (ZodObject [("q", z.optional z.string); ("id", z.string)])
              eq_refl) as (H1 & _ & H3).
  split.
  - apply H1. left; reflexivity.
  - rewrite H3; [reflexivity|].
    split; repeat constructor; simpl; intuition discriminate.
Defined.

Lemma pathParams_fields_witness :
  extractPathSchema zod3_own_keys user_id "/users/{id}/posts/{id}"
  = Return (ZodObject [("id", z.string)], ZodObject [("id", z.string)])
  /\ JS.keys (z.shape (ZodObject [("id", z.string)])) = ["id"].
Proof.
  split; [reflexivity|].
  destruct (@pathParams_fields zod3_own_keys user_id "/users/{id}/posts/{id}"
              (ZodObject [("id", z.string)]) (ZodObject [("id", z.string)])
              eq_refl) as (_ & _ & H).
  rewrite H; [reflexivity|].
  intros key [<-|[<-|[]]]; reflexivity.
Defined.

Lemma builders_throw_witness :
  getParameterObjects keep_node zod3_own_keys user_count "/users/{id}"
  = Throw StringFieldRequired
  /\ exists pathParams restParams key,
       extractPathSchema zod3_own_keys user_count "/users/{id}"
       = Return (pathParams, restParams)
       /\ ((In key (JS.keys (z.shape restParams))
            /\ string_based (get (z.shape restParams) key) = false)
           \/ (In key (JS.keys (z.shape pathParams))
               /\ string_based (get (z.shape pathParams) key) = false)).
Proof.
  split; [reflexivity|].
  destruct (@builders_throw ZodType keep_node zod3_own_keys user_count
              "/users/{id}" StringFieldRequired) as [H _].
  destruct (H eq_refl) as [[_ E]|[(_ & _ & E)|[(k & _ & _ & E)|H4]]];
    try discriminate E.
  destruct H4 as (pp & rp & key & E & _ & Hk). exists pp, rp, key. auto.
Defined.

Lemma parameter_object_fields_witness :
  exists objects,
    getParameterObjects keep_node zod3_own_keys user_query "/users/{id}"
    = Return objects
    /\ forall object, In object objects ->
         schema object = get (z.shape user_query) (name object)
         /\ explode object = true
         /\ style object = match in_ object with Path => Simple | Query => Form end.
Proof.
  destruct (getParameterObjects keep_node zod3_own_keys user_query "/users/{id}") as [objects|e] eqn:E;
    [|vm_compute in E; discriminate E].
  exists objects. split; [reflexivity|].
  destruct (@parameter_object_fields ZodType keep_node zod3_own_keys
              user_query "/users/{id}") as [H _].
  intros object Hin. apply (H objects object E Hin).
Defined.

Lemma getParameterObjects_names_witness :
  exists objects,
    getParameterObjects keep_node zod3_own_keys user_query "/users/{id}"
    = Return objects
    /\ NoDup (map (@name ZodType) objects).
Proof.
  destruct (getParameterObjects keep_node zod3_own_keys user_query "/users/{id}") as [objects|e] eqn:E;
    [|vm_compute in E; discriminate E].
  exists objects. split; [reflexivity|].
  apply (@getParameterObjects_names ZodType keep_node zod3_own_keys
           user_query "/users/{id}" objects E).
Defined.

Lemma getMutationInputObjects_result_witness :
  exists result,
    getMutationInputObjects keep_node zod3_own_keys user_count "/users/{id}"
    = Return result
    /\ Forall (fun object => in_ object = Path) (parameters result)
    /\ forall key, In key (map (@name ZodType) (parameters result))
                   <-> In key (RegExp.matchAll "/users/{id}").
Proof.
  destruct (getMutationInputObjects keep_node zod3_own_keys user_count "/users/{id}") as [result|e] eqn:E;
    [|vm_compute in E; discriminate E].
  exists result. split; [reflexivity|].
  destruct (@getMutationInputObjects_result ZodType keep_node zod3_own_keys
              user_count "/users/{id}" result E) as (H1 & _ & H3 & _).
  split; [exact H1 | exact H3].
Defined.

Lemma builders_agree_on_path_witness :
  exists objects result,
    getParameterObjects keep_node zod3_own_keys user_query "/users/{id}"
    = Return objects
    /\ getMutationInputObjects keep_node zod3_own_keys user_query "/users/{id}"
       = Return result
    /\ forall object, In object (parameters result)
                      <-> In object objects /\ in_ object = Path.
Proof.
  destruct (getParameterObjects keep_node zod3_own_keys user_query "/users/{id}") as [objects|e] eqn:E;
    [|vm_compute in E; discriminate E].
  exists objects.
  destruct (@builders_agree_on_path ZodType keep_node zod3_own_keys
              user_query "/users/{id}" objects E) as (result & Hm & Hp).
  exists result. split; [reflexivity|]. split; [exact Hm | exact Hp].
Defined.

Lemma nullable_field_refused_witness :
  In "tag" (JS.keys (z.shape user_tag))
  /\ getParameterObjects keep_node zod3_own_keys user_tag "/users/{id}"
     = Throw StringFieldRequired.
Proof.
  split; [right; left; reflexivity|].
  destruct (@nullable_field_refused ZodType keep_node zod3_own_keys
              user_tag "/users/{id}"
              (ZodObject [("id", z.string)])
              (ZodObject [("id", z.string); ("tag", ZodNullable z.string)])
              "tag" z.string eq_refl) as [H _].
  apply H; [right; left; reflexivity | reflexivity].
Defined.

Lemma template_without_segments_witness :
  exists result,
    getMutationInputObjects keep_node zod3_own_keys user_count "/users"
    = Return result
    /\ parameters result = [].
Proof.
  destruct (@template_without_segments ZodType keep_node zod3_own_keys
              (z.shape user_count) "/users" eq_refl) as [_ H].
  exact H.
Defined.

Lemma unknown_segment_aborts_witness :
  exists key,
    extractPathSchema zod3_own_keys user_id "/users/{name}"
    = Throw (UnknownPathField key)
    /\ getParameterObjects keep_node zod3_own_keys user_id "/users/{name}"
       = Throw (UnknownPathField key)
    /\ getMutationInputObjects keep_node zod3_own_keys user_id "/users/{name}"
       = Throw (UnknownPathField key).
Proof.
  apply (@unknown_segment_aborts ZodType keep_node zod3_own_keys
           (z.shape user_id) "/users/{name}" "name").
  - left; reflexivity.
  - simpl. intros [H|[]]. discriminate H.
  - reflexivity.
Defined.
